(** * Task ROI Manager: numeric helpers, comparator, CSV and task store

    A shallow embedding of [src/utils/number.ts] and of the pure parts of
    [src/App.tsx].  JavaScript numbers are IEEE-754 binary64 values, so
    they are modelled by Rocq's primitive [float]; JavaScript strings are
    sequences of UTF-16 code units. *)

From Stdlib Require Import ZArith List Bool Lia String Ascii Floats.
From Stdlib Require Uint63.
From Stdlib Require Import Permutation Sorted.
Import ListNotations.

Local Open Scope Z_scope.

(** ** The JavaScript values the program handles *)

Module JS.

(** A string is a sequence of UTF-16 code units. *)
Definition code_unit := N.
Definition jsstring := list code_unit.

Definition unit_eqb (a b : code_unit) : bool := N.eqb a b.

Fixpoint jsstring_eqb (s t : jsstring) : bool :=
  match s, t with
  | [], [] => true
  | a :: s', b :: t' => unit_eqb a b && jsstring_eqb s' t'
  | _, _ => false
  end.

(** ASCII literals. *)
Definition lit (s : string) : jsstring :=
  map N_of_ascii (list_ascii_of_string s).

(** [WhiteSpace] and [LineTerminator] code units, the ones
    [String.prototype.trim] strips. *)
Definition is_white (c : code_unit) : bool :=
  let c := Z.of_N c in
  ((9 <=? c) && (c <=? 13)) || (c =? 32) || (c =? 160) || (c =? 5760)
  || ((8192 <=? c) && (c <=? 8202)) || (c =? 8232) || (c =? 8233)
  || (c =? 8239) || (c =? 8287) || (c =? 12288) || (c =? 65279).

Fixpoint trimStart (s : jsstring) : jsstring :=
  match s with
  | c :: s' => if is_white c then trimStart s' else s
  | [] => []
  end.

Definition trimEnd (s : jsstring) : jsstring := rev (trimStart (rev s)).

Definition trim (s : jsstring) : jsstring := trimEnd (trimStart s).

(** The values of type [unknown] that reach [safeNumber]. *)
Inductive value :=
| VUndefined
| VNull
| VBoolean (b : bool)
| VNumber (n : float)
| VString (s : jsstring)
| VObject (ref : nat).

(** [Number.isFinite] on a number. *)
Definition isFinite (n : float) : bool := is_finite n.

(** *** [Number(string)]: the StringToNumber conversion of ECMA-262

    The string is already trimmed by the caller.  A decimal literal
    denotes [m * 10^e]; it is rounded to the nearest binary64 value, ties
    to even, with the rounding functions of [SpecFloat]. *)

Definition is_digit (c : code_unit) : bool := (48 <=? c)%N && (c <=? 57)%N.

Fixpoint span_digits (s : jsstring) : list Z * jsstring :=
  match s with
  | c :: s' =>
      if is_digit c
      then let '(ds, r) := span_digits s' in (Z.of_N c - 48 :: ds, r)
      else ([], s)
  | [] => ([], [])
  end.

Definition digits_value (base : Z) (ds : list Z) : Z :=
  fold_left (fun acc d => acc * base + d) ds 0.

(** The nearest binary64 value of [(-1)^s * m * 10^e]. *)
Definition round_decimal (s : bool) (m e : Z) : spec_float :=
  match m with
  | Zpos p =>
      if 0 <=? e
      then match m * 10 ^ e with
           | Zpos q => binary_round prec emax s q 0
           | _ => S754_zero s
           end
      else let '(q, e', l) :=
             SFdiv_core_binary prec emax m 0 (10 ^ (- e)) 0 in
           binary_round_aux prec emax s q e' l
  | _ => S754_zero s
  end.

(** [ExponentPart], which must end the literal. *)
Definition parse_exponent (r : jsstring) : option Z :=
  match r with
  | [] => Some 0
  | c :: r' =>
      if (c =? 101)%N || (c =? 69)%N then
        let '(neg, r'') :=
          match r' with
          | d :: t => if (d =? 45)%N then (true, t)
                      else if (d =? 43)%N then (false, t) else (false, r')
          | [] => (false, r')
          end in
        match span_digits r'' with
        | ((_ :: _) as ds, []) =>
            let v := digits_value 10 ds in Some (if neg then - v else v)
        | _ => None
        end
      else None
  end.

(** [StrUnsignedDecimalLiteral] without the [Infinity] case: mantissa
    and decimal exponent. *)
Definition parse_unsigned_decimal (s : jsstring) : option (Z * Z) :=
  let '(ip, r1) := span_digits s in
  match r1 with
  | c :: r2 =>
      if (c =? 46)%N then
        let '(fp, r3) := span_digits r2 in
        match ip, fp with
        | [], [] => None
        | _, _ =>
            match parse_exponent r3 with
            | Some x =>
                Some (digits_value 10 (ip ++ fp), x - Z.of_nat (List.length fp))
            | None => None
            end
        end
      else
        match ip with
        | [] => None
        | _ => match parse_exponent r1 with
               | Some x => Some (digits_value 10 ip, x)
               | None => None
               end
        end
  | [] => match ip with
          | [] => None
          | _ => Some (digits_value 10 ip, 0)
          end
  end.

Definition unsigned_decimal (sign : bool) (s : jsstring) : spec_float :=
  if jsstring_eqb s (lit "Infinity") then S754_infinity sign
  else match parse_unsigned_decimal s with
       | Some (m, e) => round_decimal sign m e
       | None => S754_nan
       end.

(** Digits of a [NonDecimalIntegerLiteral]. *)
Definition digit_in (base : Z) (c : code_unit) : option Z :=
  let c := Z.of_N c in
  let v := if (48 <=? c) && (c <=? 57) then c - 48
           else if (97 <=? c) && (c <=? 102) then c - 87
           else if (65 <=? c) && (c <=? 70) then c - 55
           else base in
  if v <? base then Some v else None.

Fixpoint radix_digits (base : Z) (s : jsstring) : option (list Z) :=
  match s with
  | [] => Some []
  | c :: s' =>
      match digit_in base c, radix_digits base s' with
      | Some d, Some ds => Some (d :: ds)
      | _, _ => None
      end
  end.

Definition radix_literal (base : Z) (s : jsstring) : spec_float :=
  match radix_digits base s with
  | Some ((_ :: _) as ds) =>
      binary_normalize prec emax (digits_value base ds) 0 false
  | _ => S754_nan
  end.

Definition StringToNumber (s : jsstring) : float :=
  SF2Prim
    match s with
    | [] => S754_zero false
    | c :: s' =>
        if (c =? 43)%N then unsigned_decimal false s'
        else if (c =? 45)%N then unsigned_decimal true s'
        else match s with
             | 48%N :: x :: t =>
                 if (x =? 120)%N || (x =? 88)%N then radix_literal 16 t
                 else if (x =? 111)%N || (x =? 79)%N then radix_literal 8 t
                 else if (x =? 98)%N || (x =? 66)%N then radix_literal 2 t
                 else unsigned_decimal false s
             | _ => unsigned_decimal false s
             end
    end.

(** *** Abrupt completions: a call returns a value or throws *)

Inductive exn := SyntaxError | RangeError | TypeError | SecurityError.

Inductive completion (A : Type) :=
| Normal (a : A)
| Throw (e : exn).
Arguments Normal {A} a.
Arguments Throw {A} e.

Definition ret {A} (a : A) : completion A := Normal a.

Definition bind {A B} (c : completion A) (k : A -> completion B)
  : completion B :=
  match c with
  | Normal a => k a
  | Throw e => Throw e
  end.

(** [try { body } catch { handler }] *)
Definition try_catch {A} (body : completion A) (handler : exn -> completion A)
  : completion A :=
  match body with
  | Normal a => Normal a
  | Throw e => handler e
  end.

(** What [JSON.parse] returns. *)
#[local] Set Warnings "-register-all".
Inductive json :=
| JNull
| JBool (b : bool)
| JNum (n : float)
| JStr (s : jsstring)
| JArr (items : list json)
| JObj (members : list (jsstring * json)).

(** [Array.isArray] *)
Definition isArray (v : json) : bool :=
  match v with JArr _ => true | _ => false end.

(** [s.includes(c)] for a one-unit search string. *)
Definition includes_unit (c : code_unit) (s : jsstring) : bool :=
  existsb (unit_eqb c) s.

Fixpoint starts_with (p s : jsstring) : bool :=
  match p, s with
  | [], _ => true
  | a :: p', b :: s' => unit_eqb a b && starts_with p' s'
  | _ :: _, [] => false
  end.

(** [s.includes(p)] *)
Fixpoint includes (p s : jsstring) : bool :=
  starts_with p s ||
  match s with
  | [] => false
  | _ :: s' => includes p s'
  end.

(** [s.replaceAll(c, r)] for a one-unit pattern. *)
Definition replaceAll_unit (c : code_unit) (r s : jsstring) : jsstring :=
  flat_map (fun x => if unit_eqb x c then r else [x]) s.

(** [a.join(sep)] on an array of strings. *)
Fixpoint join (sep : jsstring) (a : list jsstring) : jsstring :=
  match a with
  | [] => []
  | [x] => x
  | x :: rest => x ++ sep ++ join sep rest
  end.

(** The length of an array as a number. *)
Definition number_of_nat (n : nat) : float :=
  of_uint63 (Uint63.of_Z (Z.of_nat n)).

(** [Math.max(a, b)] *)
Definition Math_max (a b : float) : float :=
  if is_nan a || is_nan b then nan
  else if (a <? b)%float then b
  else if (b <? a)%float then a
  else if get_sign a then b else a.

(** *** [Array.prototype.sort]

    ECMA-262 requires a stable sort; a comparator result that is [NaN]
    counts as [+0].  When the comparator is consistent every stable sort
    returns the same array, so insertion from the right stands for the
    host's algorithm; for an inconsistent comparator the standard leaves
    the order to the implementation. *)
Section Sort.
Context {A : Type}.
Variable comparefn : A -> A -> float.

Fixpoint insert (x : A) (l : list A) : list A :=
  match l with
  | [] => [x]
  | y :: l' =>
      if (0 <? comparefn x y)%float then y :: insert x l'
      else x :: l
  end.

Fixpoint sort (l : list A) : list A :=
  match l with
  | [] => []
  | x :: l' => insert x (sort l')
  end.
End Sort.

Notation "x <- c ;; k" := (bind c (fun x => k))
  (at level 61, c at next level, right associativity).

End JS.

(** ** [src/utils/number.ts] *)

Module NumberUtils.
Import JS.

Definition safeNumber (v : value) : float :=
  match v with
  | VNumber n => if isFinite n then n else 0%float
  | VString s =>
      let trimmed := trim s in
      match trimmed with
      | [] => 0%float
      | _ => let n := StringToNumber trimmed in
             if isFinite n then n else 0%float
      end
  | _ => 0%float
  end.

Definition calculateRoi (revenue time : float) : float :=
  let rev := safeNumber (VNumber revenue) in
  let t := safeNumber (VNumber time) in
  if negb (isFinite rev) || negb (isFinite t) || (t <=? 0)%float
  then 0%float
  else (rev / t)%float.

(** The host's locale-aware formatters.  [toLocaleString v lo hi] is
    [v.toLocaleString(undefined, {minimumFractionDigits: lo,
    maximumFractionDigits: hi})]; [NumberFormat_currency c v] is
    [new Intl.NumberFormat(undefined, {style: 'currency', currency: c})
    .format(v)], which throws a [RangeError] for a currency code that is
    not well formed. *)
Section Formatting.
Variable toLocaleString : float -> nat -> nat -> completion jsstring.
Variable NumberFormat_currency : jsstring -> float -> completion jsstring.

Definition formatNumber (n : float) (decimals : nat) : completion jsstring :=
  let v := if isFinite n then n else 0%float in
  toLocaleString v decimals decimals.

Definition formatNumber_default (n : float) : completion jsstring :=
  formatNumber n 2.

Definition formatCurrency (n : float) (currency : jsstring)
  : completion jsstring :=
  let v := if isFinite n then n else 0%float in
  try_catch
    (NumberFormat_currency currency v)
    (fun _ => r <- formatNumber_default v ;; ret (lit "$" ++ r)).

Definition formatCurrency_default (n : float) : completion jsstring :=
  formatCurrency n (lit "USD").
End Formatting.

End NumberUtils.

(** ** [src/types.ts] and [src/App.tsx] *)

Module App.
Import JS NumberUtils.

Inductive Priority := High | Medium | Low.

Inductive Status := Todo | InProgress | Done.

Record Task := {
  id : jsstring;
  createdAt : float;
  title : jsstring;
  revenue : float;
  time : float;
  roi : float;
  notes : option jsstring;
  priority : Priority;
  status : Status
}.

Definition Priority_eqb (p q : Priority) : bool :=
  match p, q with
  | High, High | Medium, Medium | Low, Low => true
  | _, _ => false
  end.

Definition Status_eqb (p q : Status) : bool :=
  match p, q with
  | Todo, Todo | InProgress, InProgress | Done, Done => true
  | _, _ => false
  end.

Definition STORAGE_KEY : jsstring := lit "taskapp.tasks.v1".

(** *** [useTasks]: the initial task list *)

Section InitialTasks.
(** The host's [localStorage.getItem] and [JSON.parse]. *)
Variable localStorage_getItem : jsstring -> completion (option jsstring).
Variable JSON_parse : jsstring -> completion json.

(** The initialiser passed to [useState]; the array read back is cast
    to [Task[]] without inspection, so its items are kept as parsed. *)
Definition initialTasks : completion (list json) :=
  try_catch
    (raw <- localStorage_getItem STORAGE_KEY ;;
     match raw with
     | None | Some [] => ret []
     | Some raw =>
         parsed <- JSON_parse raw ;;
         ret (match parsed with
              | JArr items => items
              | _ => []
              end)
     end)
    (fun _ => ret []).
End InitialTasks.

(** *** [useTasks]: the state and its handlers *)

Record TasksState := {
  tasks : list Task;
  lastDeleted : option Task;
  snackbarOpen : bool
}.

(** Handlers run against the hook's state. *)
Definition State (A : Type) : Type := TasksState -> A * TasksState.

Definition pure {A} (a : A) : State A := fun st => (a, st).

Definition seq {A B} (c : State A) (k : A -> State B) : State B :=
  fun st => let '(a, st') := c st in k a st'.

Notation "x <~ c ;; k" := (seq c (fun x => k))
  (at level 61, c at next level, right associativity).
Notation "c ;;; k" := (seq c (fun _ => k))
  (at level 61, right associativity).

Definition getLastDeleted : State (option Task) :=
  fun st => (lastDeleted st, st).

Definition setLastDeleted (t : option Task) : State unit :=
  fun st => (tt, {| tasks := tasks st; lastDeleted := t;
                    snackbarOpen := snackbarOpen st |}).

Definition setSnackbarOpen (b : bool) : State unit :=
  fun st => (tt, {| tasks := tasks st; lastDeleted := lastDeleted st;
                    snackbarOpen := b |}).

(** [setTasks(prev => ...)]: the updater may itself set other state. *)
Definition setTasks (updater : list Task -> State (list Task)) : State unit :=
  fun st =>
    let '(next, st') := updater (tasks st) st in
    (tt, {| tasks := next; lastDeleted := lastDeleted st';
            snackbarOpen := snackbarOpen st' |}).

Definition run (c : State unit) (st : TasksState) : TasksState := snd (c st).

Definition deleteTask (i : jsstring) : State unit :=
  setTasks (fun prev =>
    let t := find (fun x => jsstring_eqb (id x) i) prev in
    match t with
    | Some t' => setLastDeleted (Some t') ;;; setSnackbarOpen true
    | None => pure tt
    end ;;;
    pure (filter (fun x => negb (jsstring_eqb (id x) i)) prev)).

Definition undoDelete : State unit :=
  ld <~ getLastDeleted ;;
  match ld with
  | None => pure tt
  | Some t =>
      setTasks (fun prev => pure (t :: prev)) ;;;
      setLastDeleted None ;;;
      setSnackbarOpen false
  end.

Definition onSnackbarClose : State unit :=
  setSnackbarOpen false ;;; setLastDeleted None.

Definition updateTask (i : jsstring) (patch : Task -> Task) : State unit :=
  setTasks (fun prev =>
    pure (map (fun t => if jsstring_eqb (id t) i then patch t else t) prev)).

(** *** CSV *)

Definition comma : code_unit := 44%N.
Definition dquote : code_unit := 34%N.
Definition newline : code_unit := 10%N.

Definition escapeCsv (v : jsstring) : jsstring :=
  if includes_unit comma v || includes_unit dquote v || includes_unit newline v
  then [dquote] ++ replaceAll_unit dquote [dquote; dquote] v ++ [dquote]
  else v.

(** The loop of [splitCsvLine]: [line] is what is left to read from
    index [i] on, [line[i + 1]] is the head of the tail, and the extra
    [i++] after a doubled quote drops that head. *)
Fixpoint splitCsvLine_loop (line : jsstring) (res : list jsstring)
  (cur : jsstring) (inQ : bool) : list jsstring :=
  match line with
  | [] => res ++ [cur]
  | c :: rest =>
      if inQ then
        if unit_eqb c dquote then
          match rest with
          | c' :: rest' =>
              if unit_eqb c' dquote
              then splitCsvLine_loop rest' res (cur ++ [dquote]) true
              else splitCsvLine_loop rest res cur false
          | [] => splitCsvLine_loop rest res cur false
          end
        else splitCsvLine_loop rest res (cur ++ [c]) true
      else
        if unit_eqb c comma then splitCsvLine_loop rest (res ++ [cur]) [] false
        else if unit_eqb c dquote then splitCsvLine_loop rest res cur true
        else splitCsvLine_loop rest res (cur ++ [c]) false
  end.

Definition splitCsvLine (line : jsstring) : list jsstring :=
  map trim (splitCsvLine_loop line [] [] false).

(** One exported row restricted to its text fields. *)
Definition csvLine (fields : list jsstring) : jsstring :=
  join [comma] (map escapeCsv fields).

(** *** The sorted, filtered view *)

Definition priRank (p : Priority) : float :=
  match p with
  | High => 3
  | Medium => 2
  | Low => 1
  end%float.

(** [Number(r || 0)]: [0], [-0] and [NaN] are falsy. *)
Definition roi_or_zero (r : float) : float :=
  if (r =? 0)%float || is_nan r then 0%float else r.

Section View.
(** The host's [String.prototype.toLowerCase] and [localeCompare]. *)
Variable toLowerCase : jsstring -> jsstring.
Variable localeCompare : jsstring -> jsstring -> float.

Definition compareTasks (a b : Task) : float :=
  let ar := roi_or_zero (roi a) in
  let br := roi_or_zero (roi b) in
  if negb (ar =? br)%float then (br - ar)%float
  else
    let ap := priRank (priority a) in
    let bp := priRank (priority b) in
    if negb (ap =? bp)%float then (bp - ap)%float
    else
      let at_ := toLowerCase (title a) in
      let bt := toLowerCase (title b) in
      if negb (jsstring_eqb at_ bt) then localeCompare at_ bt
      else (createdAt b - createdAt a)%float.

Definition matchesFilters (priorityFilter : option Priority)
  (statusFilter : option Status) (search : jsstring) (t : Task) : bool :=
  match priorityFilter with
  | None => true
  | Some p => Priority_eqb (priority t) p
  end
  && match statusFilter with
     | None => true
     | Some s => Status_eqb (status t) s
     end
  && includes (toLowerCase search) (toLowerCase (title t)).

(** [None] stands for the filter value ['All']. *)
Definition sortedFiltered (tasks : list Task)
  (priorityFilter : option Priority) (statusFilter : option Status)
  (search : jsstring) : list Task :=
  sort compareTasks
    (filter (matchesFilters priorityFilter statusFilter search) tasks).
End View.

(** *** The summary *)

Definition grade_dash : jsstring := [8212%N].

Definition validRois (tasks : list Task) : list float :=
  filter (fun x => isFinite x && (0 <? x)%float)
    (map (fun t => calculateRoi (revenue t) (time t)) tasks).

Definition avgRoi (tasks : list Task) : float :=
  let rois := validRois tasks in
  match List.length rois with
  | O => 0%float
  | n => (fold_left (fun a b => a + b) rois 0 / number_of_nat n)%float
  end.

Definition grade_of (avg : float) : jsstring :=
  if (5 <=? avg)%float then lit "A"
  else if (2 <=? avg)%float then lit "B"
  else if (0 <? avg)%float then lit "C"
  else grade_dash.

Record Totals := {
  total_revenue : float;
  efficiency : float;
  average_roi : float;
  grade : jsstring
}.

Definition totals (tasks : list Task) : Totals :=
  let revenue :=
    fold_left (fun s t => (s + safeNumber (VNumber (revenue t)))%float)
      tasks 0%float in
  let time :=
    fold_left
      (fun s t => (s + Math_max 0 (safeNumber (VNumber (time t))))%float)
      tasks 0%float in
  let efficiency :=
    if (0 <? time)%float then (revenue / time)%float else 0%float in
  let avg := avgRoi tasks in
  {| total_revenue := revenue; efficiency := efficiency;
     average_roi := avg; grade := grade_of avg |}.

(** *** [useTasks]: adding tasks *)

(** [Omit<Task, 'id' | 'createdAt'>] *)
Record NewTask := {
  new_title : jsstring;
  new_revenue : float;
  new_time : float;
  new_roi : float;
  new_notes : option jsstring;
  new_priority : Priority;
  new_status : Status
}.

Section Hosted.
(** The host's number-to-string conversion, as template literals and
    [Array.prototype.join] apply it. *)
Variable numberToString : float -> jsstring.

(** [now] is what [Date.now()] returned and [suffix] the string cut out
    of [Math.random().toString(36)]. *)
Definition task_id (stamp : float) (suffix : jsstring) : jsstring :=
  numberToString stamp ++ lit "-" ++ suffix.

Definition addTask (now : float) (suffix : jsstring) (t : NewTask)
  : State unit :=
  let task :=
    {| id := task_id now suffix; createdAt := now;
       title := new_title t; revenue := new_revenue t; time := new_time t;
       roi := new_roi t; notes := new_notes t;
       priority := new_priority t; status := new_status t |} in
  setTasks (fun prev => pure (task :: prev)).

(** *** CSV import *)

Record TaskCsvRow := {
  row_title : jsstring;
  row_revenue : jsstring;
  row_time : jsstring;
  row_notes : jsstring;
  row_priority : jsstring;
  row_status : jsstring
}.

(** The object [importCsv] builds for a row.  Priority and status are
    the row's strings, cast to the union types without a check. *)
Record ImportedTask := {
  imp_id : jsstring;
  imp_createdAt : float;
  imp_title : jsstring;
  imp_revenue : float;
  imp_time : float;
  imp_roi : float;
  imp_notes : jsstring;
  imp_priority : jsstring;
  imp_status : jsstring
}.

(** [s || d] on strings: the empty string is falsy. *)
Definition or_default (s d : jsstring) : jsstring :=
  match s with
  | [] => d
  | _ => s
  end.

(** The callback of [rows.map] in [importCsv]; [suffix] is the random
    part of the id drawn for this row. *)
Definition importRow (now : float) (r : TaskCsvRow) (idx : nat)
  (suffix : jsstring) : ImportedTask :=
  let revenue := safeNumber (VString (row_revenue r)) in
  let time := safeNumber (VString (row_time r)) in
  let roi := calculateRoi revenue time in
  {| imp_id := task_id (now + number_of_nat idx)%float suffix;
     imp_createdAt := (now + number_of_nat idx)%float;
     imp_title :=
       or_default (trim (row_title r))
         (lit "Task " ++ numberToString (number_of_nat idx + 1)%float);
     imp_revenue := revenue;
     imp_time := time;
     imp_roi := roi;
     imp_notes := or_default (trim (row_notes r)) [];
     imp_priority := or_default (row_priority r) (lit "Medium");
     imp_status := or_default (row_status r) (lit "Todo") |}.

Fixpoint importRows_from (now : float) (idx : nat) (rows : list TaskCsvRow)
  (suffixes : nat -> jsstring) : list ImportedTask :=
  match rows with
  | [] => []
  | r :: rest =>
      importRow now r idx (suffixes idx)
      :: importRows_from now (S idx) rest suffixes
  end.

(** [imported] in [importCsv]: the rows mapped with their indices. *)
Definition importedTasks (now : float) (rows : list TaskCsvRow)
  (suffixes : nat -> jsstring) : list ImportedTask :=
  importRows_from now 0 rows suffixes.

(** *** CSV export *)

Definition Priority_name (p : Priority) : jsstring :=
  match p with
  | High => lit "High"
  | Medium => lit "Medium"
  | Low => lit "Low"
  end.

Definition Status_name (s : Status) : jsstring :=
  match s with
  | Todo => lit "Todo"
  | InProgress => lit "In Progress"
  | Done => lit "Done"
  end.

Definition csv_header : jsstring :=
  lit "title,revenue,time,roi,notes,priority,status,createdAt,id" ++ [newline].

Definition notes_or_empty (t : Task) : jsstring :=
  match notes t with
  | Some n => n
  | None => []
  end.

(** One line of the body of [exportCsv]. *)
Definition exportRow (t : Task) : jsstring :=
  join [comma]
    [escapeCsv (title t);
     numberToString (revenue t);
     numberToString (time t);
     numberToString (roi t);
     escapeCsv (notes_or_empty t);
     Priority_name (priority t);
     Status_name (status t);
     numberToString (createdAt t);
     id t].

(** The text [exportCsv] puts in the downloaded file. *)
Definition exportCsv_text (tasks : list Task) : jsstring :=
  csv_header ++ join [newline] (map exportRow tasks).

End Hosted.

(** *** CSV parsing *)

Definition carriage_return : code_unit := 13%N.

(** [s.split(/\r?\n/)] *)
Fixpoint splitLines_loop (s cur : jsstring) : list jsstring :=
  match s with
  | [] => [cur]
  | c :: rest =>
      if unit_eqb c newline then cur :: splitLines_loop rest []
      else if unit_eqb c carriage_return then
        match rest with
        | c' :: rest' =>
            if unit_eqb c' newline then cur :: splitLines_loop rest' []
            else splitLines_loop rest (cur ++ [c])
        | [] => splitLines_loop rest (cur ++ [c])
        end
      else splitLines_loop rest (cur ++ [c])
  end.

Definition splitLines (s : jsstring) : list jsstring := splitLines_loop s [].

(** [s.split(',')] *)
Fixpoint splitComma_loop (s cur : jsstring) : list jsstring :=
  match s with
  | [] => [cur]
  | c :: rest =>
      if unit_eqb c comma then cur :: splitComma_loop rest []
      else splitComma_loop rest (cur ++ [c])
  end.

Definition splitComma (s : jsstring) : list jsstring := splitComma_loop s [].

(** [a.indexOf(x)], with [None] for [-1]. *)
Fixpoint indexOf (x : jsstring) (a : list jsstring) : option nat :=
  match a with
  | [] => None
  | y :: rest =>
      if jsstring_eqb y x then Some O
      else match indexOf x rest with
           | Some k => Some (S k)
           | None => None
           end
  end.

(** [raw[i] || '']: an index of [-1] or past the end reads [undefined]. *)
Definition field_at (raw : list jsstring) (i : option nat) : jsstring :=
  match i with
  | Some k => nth k raw []
  | None => []
  end.

Section ParseCsv.
Variable toLowerCase : jsstring -> jsstring.

Definition csvRow (header : list jsstring) (line : jsstring) : TaskCsvRow :=
  let idx := fun name => indexOf (lit name) header in
  let raw := splitCsvLine line in
  {| row_title := field_at raw (idx "title"%string);
     row_revenue := field_at raw (idx "revenue"%string);
     row_time := field_at raw (idx "time"%string);
     row_notes := field_at raw (idx "notes"%string);
     row_priority := field_at raw (idx "priority"%string);
     row_status := field_at raw (idx "status"%string) |}.

Definition parseCsv (text : jsstring) : list TaskCsvRow :=
  match splitLines (trim text) with
  | [] => []
  | first :: rest =>
      let header := map (fun h => toLowerCase (trim h)) (splitComma first) in
      map (csvRow header) rest
  end.
End ParseCsv.

(** *** The dialog and the form *)

Inductive DialogState :=
| DialogNone
| DialogView (task : Task)
| DialogEdit (task : option Task)
| DialogDelete (task : Task).

(** The [Partial<Task>] that [TaskForm] hands to [onSubmitTask]. *)
Record FormData := {
  data_title : option jsstring;
  data_revenue : value;
  data_time : value;
  data_roi : option float;
  data_notes : option jsstring;
  data_priority : option Priority;
  data_status : option Status
}.

(** The state of [TaskForm]: what the inputs hold. *)
Record FormState := {
  form_title : jsstring;
  form_revenue : jsstring;
  form_time : jsstring;
  form_notes : jsstring;
  form_priority : Priority;
  form_status : Status
}.

(** What [submit] passes to [onSubmit]. *)
Definition formSubmit (f : FormState) : FormData :=
  let revNum := safeNumber (VString (form_revenue f)) in
  let timeNum := safeNumber (VString (form_time f)) in
  {| data_title := Some (form_title f);
     data_revenue := VNumber revNum;
     data_time := VNumber timeNum;
     data_roi := Some (calculateRoi revNum timeNum);
     data_notes := Some (form_notes f);
     data_priority := Some (form_priority f);
     data_status := Some (form_status f) |}.

Definition option_default {A} (o : option A) (d : A) : A :=
  match o with
  | Some a => a
  | None => d
  end.

(** [data.title?.trim() || 'Untitled'] *)
Definition submitted_title (data : FormData) : jsstring :=
  or_default (match data_title data with
              | Some t => trim t
              | None => []
              end) (lit "Untitled").

(** The fields [onSubmitTask] computes from the form data. *)
Definition submitted (data : FormData) : NewTask :=
  let revenue := safeNumber (data_revenue data) in
  let time := safeNumber (data_time data) in
  {| new_title := submitted_title data;
     new_revenue := revenue;
     new_time := time;
     new_roi := calculateRoi revenue time;
     new_notes := Some (or_default (option_default (data_notes data) []) []);
     new_priority := option_default (data_priority data) Medium;
     new_status := option_default (data_status data) Todo |}.

(** [{ ...dialog.task, title, revenue, time, roi, notes, priority,
    status }], which [updateTask] spreads over the stored task. *)
Definition editPatch (shown : Task) (n : NewTask) (stored : Task) : Task :=
  {| id := id shown; createdAt := createdAt shown;
     title := new_title n; revenue := new_revenue n; time := new_time n;
     roi := new_roi n; notes := new_notes n;
     priority := new_priority n; status := new_status n |}.

Record AppState := {
  hook : TasksState;
  dialog : DialogState
}.

Definition closeDialog (st : AppState) : AppState :=
  {| hook := hook st; dialog := DialogNone |}.

Definition openDelete (t : Task) (st : AppState) : AppState :=
  {| hook := hook st; dialog := DialogDelete t |}.

Definition openEdit (t : Task) (st : AppState) : AppState :=
  {| hook := hook st; dialog := DialogEdit (Some t) |}.

Definition openAdd (st : AppState) : AppState :=
  {| hook := hook st; dialog := DialogEdit None |}.

Section Submit.
Variable numberToString : float -> jsstring.

Definition onSubmitTask (now : float) (suffix : jsstring) (data : FormData)
  (st : AppState) : AppState :=
  let n := submitted data in
  closeDialog
    match dialog st with
    | DialogEdit (Some shown) =>
        {| hook := run (updateTask (id shown) (editPatch shown n)) (hook st);
           dialog := dialog st |}
    | _ =>
        {| hook := run (addTask numberToString now suffix n) (hook st);
           dialog := dialog st |}
    end.
End Submit.

Definition onConfirmDelete (st : AppState) : AppState :=
  match dialog st with
  | DialogDelete t =>
      closeDialog {| hook := run (deleteTask (id t)) (hook st);
                     dialog := dialog st |}
  | _ => st
  end.

(** *** The ROI readouts *)

Section Readouts.
Variable toLocaleString : float -> nat -> nat -> completion jsstring.

(** The ROI cell of a table row. *)
Definition roiCell (t : Task) : completion jsstring :=
  if (0 <? time t)%float && (0 <=? revenue t)%float
  then formatNumber toLocaleString (calculateRoi (revenue t) (time t)) 2
  else Normal grade_dash.

(** The ROI line of the details dialog. *)
Definition roiDetail (t : Task) : completion jsstring :=
  if (0 <? time t)%float
  then formatNumber toLocaleString (calculateRoi (revenue t) (time t)) 2
  else Normal grade_dash.

(** The live ROI of the form. *)
Definition roiLive (f : FormState) : completion jsstring :=
  let revNum := safeNumber (VString (form_revenue f)) in
  let timeNum := safeNumber (VString (form_time f)) in
  if (0 <? timeNum)%float && (0 <=? revNum)%float
  then formatNumber toLocaleString (calculateRoi revNum timeNum) 2
  else Normal grade_dash.
End Readouts.

End App.

(** ** A sample host

    Concrete stand-ins for the host functions the program calls, used to
    run the definitions on examples.  They cover the en-US locale and
    Basic Latin text. *)

Module Host.
Import JS.

(** [localStorage.getItem] over a store that holds at most the tasks. *)
Definition getItem (stored : option jsstring) (key : jsstring)
  : completion (option jsstring) :=
  if jsstring_eqb key App.STORAGE_KEY then Normal stored else Normal None.

(** [JSON.parse] on a handful of documents; other text is rejected. *)
Definition JSON_parse (text : jsstring) : completion json :=
  if jsstring_eqb text (lit "[]") then Normal (JArr [])
  else if jsstring_eqb text (lit "[null]") then Normal (JArr [JNull])
  else if jsstring_eqb text (lit "null") then Normal JNull
  else if jsstring_eqb text (lit "{}") then Normal (JObj [])
  else Throw SyntaxError.

(** Decimal digits of a natural number, least significant first. *)
Fixpoint rev_digits (fuel : nat) (n : Z) : jsstring :=
  match fuel with
  | O => []
  | S fuel' =>
      Z.to_N (48 + n mod 10) ::
      (if n <? 10 then [] else rev_digits fuel' (n / 10))
  end.

Fixpoint pad_zeros (n : nat) (s : jsstring) : jsstring :=
  match n with
  | O => s
  | S n' => match s with
            | [] => 48%N :: pad_zeros n' []
            | c :: s' => c :: pad_zeros n' s'
            end
  end.

(** Thousands separators, on digits given least significant first. *)
Fixpoint group3 (s : jsstring) : jsstring :=
  match s with
  | a :: b :: c :: ((_ :: _) as r) => a :: b :: c :: 44%N :: group3 r
  | _ => s
  end.

(** [|v| * 10^d] rounded to an integer, halves away from zero. *)
Definition scaled (v : spec_float) (d : nat) : Z :=
  match v with
  | S754_finite _ m e =>
      let num := Zpos m * 10 ^ Z.of_nat d in
      if 0 <=? e then num * 2 ^ e
      else (2 * num + 2 ^ (- e)) / (2 * 2 ^ (- e))
  | _ => 0
  end.

Definition sf_sign (v : spec_float) : bool :=
  match v with
  | S754_zero s | S754_infinity s | S754_finite s _ _ => s
  | S754_nan => false
  end.

(** The digits of [|v|] with [d] fraction digits, en-US style. *)
Definition unsigned_fixed (v : spec_float) (d : nat) : jsstring :=
  let n := scaled v d in
  let ds := pad_zeros (S d) (rev_digits (S (Z.to_nat (Z.log2 n))) n) in
  let int_part := rev (group3 (skipn d ds)) in
  match d with
  | O => int_part
  | _ => int_part ++ [46%N] ++ rev (firstn d ds)
  end.

Definition fixed (v : float) (d : nat) : jsstring :=
  let x := Prim2SF v in
  match x with
  | S754_nan => lit "NaN"
  | S754_infinity s => (if s then [45%N] else []) ++ [8734%N]
  | _ => (if sf_sign x then [45%N] else []) ++ unsigned_fixed x d
  end.

(** [toLocaleString] with [minimumFractionDigits = maximumFractionDigits];
    a digit count outside 0..100, or a minimum above the maximum, is a
    [RangeError]. *)
Definition toLocaleString (v : float) (lo hi : nat) : completion jsstring :=
  if (Nat.leb lo hi && Nat.leb hi 100)%bool then Normal (fixed v hi)
  else Throw RangeError.

Definition is_letter (c : code_unit) : bool :=
  ((65 <=? c) && (c <=? 90) || (97 <=? c) && (c <=? 122))%N.

(** Currency style: a code that is not three letters is a [RangeError];
    US dollars print with the dollar sign, other codes with the code. *)
Definition NumberFormat_currency (currency : jsstring) (v : float)
  : completion jsstring :=
  match currency with
  | [a; b; c] =>
      if is_letter a && is_letter b && is_letter c then
        let x := Prim2SF v in
        let sign := if sf_sign x then [45%N] else [] in
        let symbol := if jsstring_eqb currency (lit "USD") then lit "$"
                      else currency ++ [160%N] in
        Normal (sign ++ symbol ++ unsigned_fixed x 2)
      else Throw RangeError
  | _ => Throw RangeError
  end.

(** [toLowerCase] on Basic Latin letters. *)
Definition toLowerCase (s : jsstring) : jsstring :=
  map (fun c => if ((65 <=? c) && (c <=? 90))%N then (c + 32)%N else c) s.

(** Canonical composition of [e] followed by a combining acute accent. *)
Fixpoint compose (s : jsstring) : jsstring :=
  match s with
  | c :: r =>
      match c, r with
      | 101%N, 769%N :: r' => 233%N :: compose r'
      | _, _ => c :: compose r
      end
  | [] => []
  end.

Fixpoint compare_units (s t : jsstring) : float :=
  match s, t with
  | [], [] => 0
  | [], _ :: _ => -1
  | _ :: _, [] => 1
  | a :: s', b :: t' =>
      if (a <? b)%N then -1
      else if (b <? a)%N then 1
      else compare_units s' t'
  end%float.

(** A collation that, as ECMA-262 requires of [localeCompare], returns
    [0] on canonically equivalent strings. *)
Definition localeCompare (s t : jsstring) : float :=
  compare_units (compose s) (compose t).

(** Drops the zeros at the head of a list of digits. *)
Fixpoint strip_zeros (s : jsstring) : jsstring :=
  match s with
  | c :: s' => if (c =? 48)%N then strip_zeros s' else s
  | [] => []
  end.

(** The exact decimal value of a finite number: JavaScript prints the
    shortest decimal that reads back as the number, which is this one for
    integers below 1e21 and for short binary fractions. *)
Definition exact_decimal (m : positive) (e : Z) : jsstring :=
  if 0 <=? e then
    let n := Zpos m * 2 ^ e in
    rev (rev_digits (S (Z.to_nat (Z.log2 n))) n)
  else
    let k := Z.to_nat (- e) in
    let n := Zpos m * 5 ^ (- e) in
    let ds := pad_zeros (S k) (rev_digits (S (Z.to_nat (Z.log2 n))) n) in
    let frac := strip_zeros (firstn k ds) in
    rev (skipn k ds) ++
    match frac with
    | [] => []
    | _ => 46%N :: rev frac
    end.

Definition numberToString (v : float) : jsstring :=
  match Prim2SF v with
  | S754_nan => lit "NaN"
  | S754_infinity s => (if s then [45%N] else []) ++ lit "Infinity"
  | S754_zero _ => lit "0"
  | S754_finite s m e => (if s then [45%N] else []) ++ exact_decimal m e
  end.

End Host.

(** ** Sample tasks *)

Module Samples.
Import JS NumberUtils App.

(** A task as [onSubmitTask] builds it, [roi] computed from the rest. *)
Definition mkTask (i : string) (created : float) (ttl : jsstring)
  (rev tm : float) (p : Priority) : Task :=
  {| id := lit i; createdAt := created; title := ttl;
     revenue := rev; time := tm; roi := calculateRoi rev tm;
     notes := None; priority := p; status := Todo |}.

Definition call : Task := mkTask "1-a" 1000 (lit "Call client") 100 4 High.
Definition demo : Task := mkTask "2-b" 2000 (lit "Prepare demo") 300 2 Medium.
Definition mail : Task := mkTask "3-c" 3000 (lit "Send mail") 10 0 Low.

(** The two entries of the specification's comparator example. *)
Definition low_B : Task := mkTask "4-d" 4000 (lit "B") 20 4 Low.
Definition high_A : Task := mkTask "5-e" 5000 (lit "A") 10 2 High.

(** Same ROI, priority and title; [newer] was created later. *)
Definition older : Task := mkTask "6-f" 6000 (lit "Same") 10 2 High.
Definition newer : Task := mkTask "7-g" 7000 (lit "same") 10 2 High.

(** Titles that differ as strings and are canonically equivalent:
    U+00E9, and U+0065 followed by U+0301. *)
Definition composed : Task := mkTask "8-h" 8000 [233%N] 10 2 High.
Definition decomposed : Task := mkTask "9-i" 9000 [101%N; 769%N] 10 2 High.

(** The title of [composed] once more, on an older task. *)
Definition composed_old : Task := mkTask "11-k" 7000 [233%N] 10 2 High.

(** A revenue of negative zero. *)
Definition zero_revenue : Task := mkTask "12-l" 12000 (lit "Zero") (-0) 5 Low.

(** What a user typed in the form, and what [onSubmitTask] makes of it. *)
Definition form : FormState :=
  {| form_title := lit " Write offer "; form_revenue := lit "250";
     form_time := lit "2.5"; form_notes := [];
     form_priority := High; form_status := Todo |}.

Definition draft : NewTask := submitted (formSubmit form).

(** Largest finite number over one half: the quotient overflows. *)
Definition huge : Task :=
  mkTask "10-j" 10000 (lit "Huge") 0x1.fffffffffffffp+1023 0.5 High.

End Samples.

Import JS NumberUtils App.

(** The Average ROI as the specification words it: the mean over the
    tasks whose computed ROI is strictly positive. *)
Definition spec_avgRoi (tasks : list Task) : float :=
  let rois :=
    filter (fun x => (0 <? x)%float)
      (map (fun t => calculateRoi (revenue t) (time t)) tasks) in
  match List.length rois with
  | O => 0%float
  | n => (fold_left (fun a b => a + b) rois 0 / number_of_nat n)%float
  end.

(** No white space at either end of a string. *)
Definition edge_white (f : jsstring) : bool :=
  match f with
  | [] => false
  | c :: _ => is_white c || is_white (last f c)
  end.

(** What may follow a field in a line: nothing, or a comma. *)
Definition field_end (tail : jsstring) : Prop :=
  tail = [] \/ exists tail', tail = comma :: tail'.

(** The outcome of two comparisons in a row. *)
Definition comp_seq (c1 c2 : comparison) : comparison :=
  match c1 with Eq => c2 | _ => c1 end.

(** Two tasks agree on the four keys of the comparator. *)
Definition same_keys (toLowerCase : jsstring -> jsstring) (a b : Task)
  : Prop :=
  (roi_or_zero (roi a) =? roi_or_zero (roi b))%float = true
  /\ priority a = priority b
  /\ toLowerCase (title a) = toLowerCase (title b)
  /\ (createdAt a =? createdAt b)%float = true.

(** Two of the conditions that make a consistent comparator in
    ECMA-262, which [localeCompare] is asked to be: its sign flips with
    its arguments, and "before" is transitive.  That ties are transitive
    is not part of this record. *)
Record consistent_collation (localeCompare : jsstring -> jsstring -> float)
  : Prop := {
  lc_sign : forall s t,
    (localeCompare s t <? 0)%float = (0 <? localeCompare t s)%float;
  lc_trans : forall s t u,
    (localeCompare s t <? 0)%float = true ->
    (localeCompare t u <? 0)%float = true ->
    (localeCompare s u <? 0)%float = true
}.

(** The collation does not rank two different strings as equal. *)
Definition told_apart (localeCompare : jsstring -> jsstring -> float)
  (s t : jsstring) : Prop :=
  s <> t ->
  (localeCompare s t <? 0)%float || (0 <? localeCompare s t)%float = true.

(** The comparator read as a lexicographic test: [a] goes before [b]. *)
Definition lex_before (toLowerCase : jsstring -> jsstring)
  (localeCompare : jsstring -> jsstring -> float) (a b : Task) : bool :=
  if negb (roi_or_zero (roi a) =? roi_or_zero (roi b))%float
  then (roi_or_zero (roi b) <? roi_or_zero (roi a))%float
  else if negb (Priority_eqb (priority a) (priority b))
  then (priRank (priority b) <? priRank (priority a))%float
  else if negb (jsstring_eqb (toLowerCase (title a)) (toLowerCase (title b)))
  then (localeCompare (toLowerCase (title a)) (toLowerCase (title b)) <? 0)%float
  else (createdAt b <? createdAt a)%float.

(** [x] is sorted before [y]. *)
Definition precedes {A} (comparefn : A -> A -> float) (x y : A) : Prop :=
  (comparefn x y <? 0)%float = true.

(** The ids of the tasks in the list. *)
Definition ids (st : TasksState) : list jsstring := map id (tasks st).

(** No two tasks share an id, and the task kept for undo, if any, is
    not in the list. *)
Definition distinct_ids (st : TasksState) : Prop :=
  NoDup (ids st)
  /\ forall t, lastDeleted st = Some t -> ~ In (id t) (ids st).

(** What the user can do to the task list. *)
Inductive Action :=
| ActDelete (i : jsstring)
| ActUndo
| ActCloseSnackbar
| ActEdit (shown : Task) (n : NewTask)
| ActAdd (now : float) (suffix : jsstring) (n : NewTask).

Definition perform (numberToString : float -> jsstring) (a : Action)
  : State unit :=
  match a with
  | ActDelete i => deleteTask i
  | ActUndo => undoDelete
  | ActCloseSnackbar => onSnackbarClose
  | ActEdit shown n => updateTask (id shown) (editPatch shown n)
  | ActAdd now suffix n => addTask numberToString now suffix n
  end.

(** The id drawn for an added task is new. *)
Definition fresh (numberToString : float -> jsstring) (a : Action)
  (st : TasksState) : Prop :=
  match a with
  | ActAdd now suffix _ =>
      let i := task_id numberToString now suffix in
      ~ In i (ids st) /\ forall t, lastDeleted st = Some t -> id t <> i
  | _ => True
  end.

Fixpoint perform_all (numberToString : float -> jsstring)
  (acts : list Action) (st : TasksState) : TasksState :=
  match acts with
  | [] => st
  | a :: rest =>
      perform_all numberToString rest (run (perform numberToString a) st)
  end.

Fixpoint fresh_along (numberToString : float -> jsstring)
  (acts : list Action) (st : TasksState) : Prop :=
  match acts with
  | [] => True
  | a :: rest =>
      fresh numberToString a st
      /\ fresh_along numberToString rest (run (perform numberToString a) st)
  end.

(** The header [parseCsv] reads off the first line of the text. *)
Definition header_of (toLowerCase : jsstring -> jsstring) (text : jsstring)
  : list jsstring :=
  match splitLines (trim text) with
  | [] => []
  | first :: _ => map (fun h => toLowerCase (trim h)) (splitComma first)
  end.

(** A field that [exportCsv] writes without escaping and that reads back
    as it is: no comma, quote or newline, no white space at the ends. *)
Definition plain_field (f : jsstring) : Prop :=
  includes_unit comma f = false
  /\ includes_unit dquote f = false
  /\ includes_unit newline f = false
  /\ edge_white f = false.

(** A text field that survives the line-by-line reading of [parseCsv]. *)
Definition text_field (f : jsstring) : Prop :=
  includes_unit newline f = false /\ edge_white f = false.

(** The columns of the exported file, and their lower-case forms. *)
Definition csv_columns : list jsstring :=
  map lit ["title"; "revenue"; "time"; "roi"; "notes"; "priority";
           "status"; "createdAt"; "id"]%string.

Definition csv_columns_lower : list jsstring :=
  map lit ["title"; "revenue"; "time"; "roi"; "notes"; "priority";
           "status"; "createdat"; "id"]%string.

(** The row a task is expected to come back as. *)
Definition exported_row (numberToString : float -> jsstring) (t : Task)
  : TaskCsvRow :=
  {| row_title := title t;
     row_revenue := numberToString (revenue t);
     row_time := numberToString (time t);
     row_notes := notes_or_empty t;
     row_priority := Priority_name (priority t);
     row_status := Status_name (status t) |}.

(** A line that ends in a unit that is not white space. *)
Definition ends_clean (r : jsstring) : Prop :=
  r <> [] /\ is_white (last r 0%N) = false.

(** The units a printed number is made of: digits, sign, point and the
    letters of [NaN] and [Infinity]. *)
Definition number_unit (c : code_unit) : bool :=
  is_digit c || (c =? 45)%N || (c =? 46)%N || Host.is_letter c.

(** Finite values of the specification format. *)
Definition sf_finite (x : spec_float) : bool :=
  match x with
  | S754_zero _ | S754_finite _ _ _ => true
  | _ => false
  end.

(** ** Facts about binary64 numbers *)

Lemma SFcompare_refl_finite s m e :
  SFcompare (S754_finite s m e) (S754_finite s m e) = Some Eq.
Proof.
  simpl. rewrite Z.compare_refl.
  fold (Pos.compare m m). rewrite Pos.compare_refl.
  destruct s; reflexivity.
Qed.

Lemma is_nan_spec x :
  is_nan x = match Prim2SF x with S754_nan => true | _ => false end.
Proof.
  unfold is_nan. rewrite eqb_spec. unfold SFeqb.
  destruct (Prim2SF x) as [s|s| |s m e].
  - reflexivity.
  - destruct s; reflexivity.
  - reflexivity.
  - rewrite SFcompare_refl_finite. reflexivity.
Qed.

Lemma is_infinity_spec x :
  is_infinity x = match Prim2SF x with S754_infinity _ => true | _ => false end.
Proof.
  unfold is_infinity. rewrite eqb_spec, abs_spec.
  replace (Prim2SF infinity) with (S754_infinity false) by reflexivity.
  destruct (Prim2SF x) as [s|s| |s m e]; reflexivity.
Qed.

Lemma isFinite_spec x : isFinite x = sf_finite (Prim2SF x).
Proof.
  unfold isFinite, is_finite. rewrite is_nan_spec, is_infinity_spec.
  destruct (Prim2SF x); reflexivity.
Qed.

Lemma Prim2SF_zero : Prim2SF 0 = S754_zero false.
Proof. reflexivity. Qed.

(** A number strictly above zero is not below or equal to it. *)
Lemma pos_not_le_zero x : (0 <? x)%float = true -> (x <=? 0)%float = false.
Proof.
  rewrite ltb_spec, leb_spec, Prim2SF_zero. unfold SFltb, SFleb.
  destruct (Prim2SF x) as [s|s| |s m e]; simpl; try discriminate;
    destruct s; simpl; congruence.
Qed.

(** Zero divided by a finite number that is not [<= 0] is (positive) zero. *)
Lemma zero_div_pos t :
  isFinite t = true -> (t <=? 0)%float = false -> (0 / t)%float = 0%float.
Proof.
  rewrite isFinite_spec, leb_spec, Prim2SF_zero. intros Hf Hle.
  apply Prim2SF_inj. rewrite div_spec, Prim2SF_zero.
  unfold SF64div. revert Hf Hle. unfold SFleb.
  destruct (Prim2SF t) as [s|s| |s m e]; simpl; try discriminate;
    destruct s; simpl; try discriminate; reflexivity.
Qed.

(** *** The order of binary64 values *)

Ltac sf_order :=
  repeat match goal with
         | s : bool |- _ => destruct s
         end;
  cbn [SFcompare] in *;
  change (Pos.compare_cont Eq) with Pos.compare in *;
  repeat match goal with
         | H : context [Z.compare ?a ?b] |- _ =>
             destruct (Z.compare_spec a b)
         | |- context [Z.compare ?a ?b] =>
             destruct (Z.compare_spec a b)
         | H : context [Pos.compare ?a ?b] |- _ =>
             destruct (Pos.compare_spec a b)
         | |- context [Pos.compare ?a ?b] =>
             destruct (Pos.compare_spec a b)
         end;
  cbn [CompOpp] in *;
  try discriminate; try congruence; try lia.

Lemma SFcompare_trans x y z c1 c2 :
  SFcompare x y = Some c1 -> SFcompare y z = Some c2 ->
  c1 <> Gt -> c2 <> Gt ->
  SFcompare x z = Some (comp_seq c1 c2).
Proof.
  destruct x as [sx|sx| |sx mx ex], y as [sy|sy| |sy my ey],
    z as [sz|sz| |sz mz ez]; intros H1 H2 N1 N2;
    try discriminate;
    try (injection H1 as <-); try (injection H2 as <-); unfold comp_seq.
  all: sf_order.
Qed.

Lemma SFcompare_sym x y :
  SFcompare y x = option_map CompOpp (SFcompare x y).
Proof.
  destruct x as [sx|sx| |sx mx ex], y as [sy|sy| |sy my ey]; simpl;
    try reflexivity.
  all: sf_order.
Qed.

(** *** Rounding keeps the sign of a difference *)

Lemma iter_xO_pow m d : Zpos (Pos.iter xO m d) = Zpos m * 2 ^ Zpos d.
Proof.
  rewrite <- Z.shiftl_mul_pow2 by lia. unfold Z.shiftl.
  apply (Pos.iter_swap_gen _ _ Zpos xO (Z.mul 2)). reflexivity.
Qed.

Lemma shl_align_value m e e' :
  e' <= e -> Zpos (fst (shl_align m e e')) = Zpos m * 2 ^ (e - e').
Proof.
  intros H. unfold shl_align.
  destruct (e' - e) as [|p|p] eqn:E; try lia; simpl.
  - replace (e - e') with 0 by lia. rewrite Z.pow_0_r. lia.
  - rewrite iter_xO_pow. replace (e - e') with (Zpos p) by lia. reflexivity.
Qed.

Lemma digits2_size m : digits2_pos m = Pos.size m.
Proof. induction m; simpl; congruence. Qed.

Lemma digits2_bounds m :
  let d := Zpos (digits2_pos m) in
  Zpos m < 2 ^ d /\ 2 ^ d <= 2 * Zpos m.
Proof.
  cbv zeta. rewrite digits2_size.
  pose proof (Pos.size_gt m) as Hg. pose proof (Pos.size_le m) as Hl.
  rewrite <- Pos2Z.inj_pow. lia.
Qed.

Lemma bounded_inv m e :
  bounded prec emax m e = true ->
  Z.max (Zpos (digits2_pos m) + e - 53) (-1074) = e /\ e <= 971.
Proof.
  unfold bounded, canonical_mantissa, fexp, SpecFloat.emin, prec, emax.
  intros H. apply andb_true_iff in H. destruct H as [H1 H2].
  apply Z.eqb_eq in H1. apply Z.leb_le in H2. simpl in *. lia.
Qed.

Lemma shr_1_m mrs :
  0 <= shr_m mrs ->
  shr_m (shr_1 mrs) = shr_m mrs / 2 /\ 0 <= shr_m (shr_1 mrs).
Proof.
  destruct mrs as [m r s]. rewrite <- Z.div2_div.
  destruct m as [|[p|p|]|p]; simpl; intros Hm; split;
    try reflexivity; lia.
Qed.

Lemma iter_shr_1_m p : forall mrs,
  0 <= shr_m mrs ->
  shr_m (iter_pos shr_1 p mrs) = shr_m mrs / 2 ^ Zpos p
  /\ 0 <= shr_m (iter_pos shr_1 p mrs).
Proof.
  induction p as [p IH|p IH|]; intros mrs Hm; simpl iter_pos.
  - destruct (shr_1_m mrs Hm) as [E1 P1].
    destruct (IH _ P1) as [E2 P2]. destruct (IH _ P2) as [E3 P3].
    split; [|exact P3]. rewrite E3, E2, E1.
    assert (0 < 2 ^ Zpos p) by (apply Z.pow_pos_nonneg; lia).
    rewrite !Z.div_div by lia.
    replace (Zpos p~1) with (1 + Zpos p + Zpos p) by lia.
    rewrite !Z.pow_add_r, Z.pow_1_r by lia. f_equal. lia.
  - destruct (IH _ Hm) as [E2 P2]. destruct (IH _ P2) as [E3 P3].
    split; [|exact P3]. rewrite E3, E2.
    assert (0 < 2 ^ Zpos p) by (apply Z.pow_pos_nonneg; lia).
    rewrite !Z.div_div by lia.
    replace (Zpos p~0) with (Zpos p + Zpos p) by lia.
    rewrite !Z.pow_add_r by lia. f_equal.
  - rewrite Z.pow_1_r. apply shr_1_m. exact Hm.
Qed.

Lemma shr_m_of_loc m l : shr_m (shr_record_of_loc m l) = m.
Proof. destruct l as [|[| |]]; reflexivity. Qed.

(** Shifting a positive mantissa down to the format keeps it positive,
    as long as the exponent is not below the smallest one. *)
Lemma shr_fexp_pos m e l :
  0 < m -> -1074 <= e ->
  0 < shr_m (fst (shr_fexp prec emax m e l))
  /\ -1074 <= snd (shr_fexp prec emax m e l).
Proof.
  intros Hm He. unfold shr_fexp, shr.
  destruct m as [|p|p]; try lia. simpl Zdigits2.
  destruct (digits2_bounds p) as [Hlt Hle].
  set (d := Zpos (digits2_pos p)) in *.
  unfold fexp, SpecFloat.emin, prec, emax.
  change (3 - 1024 - 53) with (-1074).
  destruct (Z.max (d + e - 53) (-1074) - e) as [|n|n] eqn:E; simpl fst; simpl snd.
  - rewrite shr_m_of_loc. lia.
  - assert (En : Zpos n = d - 53) by lia.
    split; [|lia].
    destruct (iter_shr_1_m n (shr_record_of_loc (Zpos p) l)) as [Es _].
    { rewrite shr_m_of_loc. lia. }
    rewrite Es, shr_m_of_loc, En.
    assert (H52 : 2 ^ 52 * 2 ^ (d - 53) <= Zpos p).
    { rewrite <- Z.pow_add_r by lia. replace (52 + (d - 53)) with (d - 1) by lia.
      assert (2 ^ d = 2 * 2 ^ (d - 1)).
      { replace d with (1 + (d - 1)) at 1 by lia. rewrite Z.pow_add_r by lia. reflexivity. }
      lia. }
    assert (0 < 2 ^ (d - 53)) by (apply Z.pow_pos_nonneg; lia).
    assert (2 ^ 52 <= Zpos p / 2 ^ (d - 53)).
    { apply Z.div_le_lower_bound; lia. }
    assert (0 < 2 ^ 52) by reflexivity. lia.
  - rewrite shr_m_of_loc. lia.
Qed.

Lemma round_nearest_even_pos m l : 0 < m -> 0 < round_nearest_even m l.
Proof.
  intros H. destruct l as [|[| |]]; simpl; try lia.
  destruct (Z.even m); lia.
Qed.

Lemma binary_round_aux_shape s m e l :
  0 < m -> -1074 <= e ->
  (exists p e', binary_round_aux prec emax s m e l = S754_finite s p e')
  \/ binary_round_aux prec emax s m e l = S754_infinity s.
Proof.
  intros Hm He. unfold binary_round_aux.
  destruct (shr_fexp_pos m e l Hm He) as [H1 H2].
  destruct (shr_fexp prec emax m e l) as [mrs' e'] eqn:E1. simpl in H1, H2.
  pose proof (round_nearest_even_pos _ (loc_of_shr_record mrs') H1) as Hr.
  destruct (shr_fexp_pos _ e' loc_Exact Hr H2) as [H3 H4].
  destruct (shr_fexp prec emax _ e' loc_Exact) as [mrs'' e''] eqn:E2.
  simpl in H3, H4.
  destruct (shr_m mrs'') as [|q|q]; try lia.
  destruct (e'' <=? emax - prec); [left; eauto | right; reflexivity].
Qed.

Lemma binary_normalize_shape d e :
  d <> 0 -> -1074 <= e ->
  (exists p e', binary_normalize prec emax d e false
                = S754_finite (d <? 0) p e')
  \/ binary_normalize prec emax d e false = S754_infinity (d <? 0).
Proof.
  intros Hd He.
  assert (R : forall s m,
    (exists p e', binary_round prec emax s m e = S754_finite s p e')
    \/ binary_round prec emax s m e = S754_infinity s).
  { intros s m. unfold binary_round.
    destruct (shl_align m e _) as [mz ez] eqn:Ea.
    apply binary_round_aux_shape; [lia|].
    revert Ea. unfold shl_align, fexp, SpecFloat.emin, prec, emax.
    change (3 - 1024 - 53) with (-1074).
    destruct (Z.max _ _ - e) eqn:Ed; intros Ea; injection Ea as <- <-; lia. }
  destruct d as [|m|m]; [contradiction| |]; simpl; apply R.
Qed.

(** Canonical mantissas compare as the values they stand for. *)
Lemma aligned_compare mx ex my ey :
  bounded prec emax mx ex = true -> bounded prec emax my ey = true ->
  let ez := Z.min ex ey in
  match Z.compare ex ey with
  | Lt => Lt
  | Gt => Gt
  | Eq => Pos.compare mx my
  end
  = Z.compare (Zpos (fst (shl_align mx ex ez)))
              (Zpos (fst (shl_align my ey ez))).
Proof.
  intros Bx By. cbv zeta.
  apply bounded_inv in Bx, By. destruct Bx as [Cx _], By as [Cy _].
  destruct (digits2_bounds mx) as [Ux Lx], (digits2_bounds my) as [Uy Ly].
  set (dx := Zpos (digits2_pos mx)) in *.
  set (dy := Zpos (digits2_pos my)) in *.
  rewrite !shl_align_value by lia.
  assert (P53 : forall d, 0 < d -> d <= 53 -> 2 ^ d <= 2 ^ 53).
  { intros d ? ?. apply Z.pow_le_mono_r; lia. }
  assert (far : forall m d m' k, 0 < d -> Zpos m < 2 ^ d -> d <= 53 ->
            2 ^ 53 <= 2 * Zpos m' -> 0 < k -> Zpos m < Zpos m' * 2 ^ k).
  { intros m d m' k ? ? ? ? ?. specialize (P53 d).
    assert (2 ^ 1 <= 2 ^ k) by (apply Z.pow_le_mono_r; lia).
    rewrite Z.pow_1_r in *. nia. }
  destruct (Z.compare_spec ex ey) as [E|L|G].
  - subst ey. rewrite Z.min_id, Z.sub_diag, Z.pow_0_r, !Z.mul_1_r.
    reflexivity.
  - rewrite Z.min_l, Z.sub_diag, Z.pow_0_r, Z.mul_1_r by lia.
    symmetry. apply Z.compare_lt_iff.
    assert (dy = 53) by lia.
    apply (far mx dx my (ey - ex)); unfold dx in *; try lia.
    replace 53 with dy by assumption. exact Ly.
  - rewrite Z.min_r, Z.sub_diag, Z.pow_0_r, Z.mul_1_r by lia.
    symmetry. apply Z.compare_gt_iff.
    assert (dx = 53) by lia.
    apply (far my dy mx (ex - ey)); unfold dy in *; try lia.
    replace 53 with dx by assumption. exact Lx.
Qed.

Lemma SFltb_sub_zero x y :
  valid_binary x = true -> valid_binary y = true ->
  SFltb (SF64sub x y) (S754_zero false) = SFltb x y
  /\ SFltb (S754_zero false) (SF64sub x y) = SFltb y x.
Proof.
  intros Vx Vy.
  destruct x as [sx|sx| |sx mx ex], y as [sy|sy| |sy my ey];
    try (destruct sx; try destruct sy; split; reflexivity);
    try (destruct sy; split; reflexivity); try (split; reflexivity).
  simpl in Vx, Vy. unfold SF64sub, SFsub.
  pose proof (aligned_compare mx ex my ey Vx Vy) as C.
  pose proof (aligned_compare my ey mx ex Vy Vx) as C'.
  cbv zeta in C, C'. rewrite (Z.min_comm ey ex) in C'.
  apply bounded_inv in Vx, Vy.
  set (ez := Z.min ex ey) in *.
  set (X := Zpos (fst (shl_align mx ex ez))) in *.
  set (Y := Zpos (fst (shl_align my ey ez))) in *.
  assert (PX : 0 < X) by (unfold X; lia).
  assert (PY : 0 < Y) by (unfold Y; lia).
  clearbody X Y.
  set (d := cond_Zopp sx X - cond_Zopp sy Y).
  assert (K : SFltb (S754_finite sx mx ex) (S754_finite sy my ey) = (d <? 0)
              /\ SFltb (S754_finite sy my ey) (S754_finite sx mx ex)
                 = (0 <? d)).
  { assert (O : match ex ?= ey with
                | Eq => CompOpp (mx ?= my)%positive
                | Lt => Gt
                | Gt => Lt
                end = CompOpp (X ?= Y))
      by (rewrite <- C; destruct (ex ?= ey); reflexivity).
    assert (O' : match ey ?= ex with
                 | Eq => CompOpp (my ?= mx)%positive
                 | Lt => Gt
                 | Gt => Lt
                 end = CompOpp (Y ?= X))
      by (rewrite <- C'; destruct (ey ?= ex); reflexivity).
    unfold SFltb, SFcompare, d, cond_Zopp.
    change (Pos.compare_cont Eq) with Pos.compare.
    destruct sx, sy; rewrite ?C, ?C', ?O, ?O';
      destruct (Z.compare_spec X Y), (Z.compare_spec Y X);
      cbn [CompOpp]; split; symmetry;
      first [apply Z.ltb_lt; lia | apply Z.ltb_ge; lia]. }
  destruct K as [K1 K2]. rewrite K1, K2.
  destruct (Z.eq_dec d 0) as [Z0|NZ].
  - rewrite Z0. split; reflexivity.
  - destruct (binary_normalize_shape d ez NZ) as [[p [e' E]]|E];
      [unfold ez; lia| |]; rewrite E; unfold SFltb, SFcompare;
      destruct (Z.ltb_spec d 0), (Z.ltb_spec 0 d); try lia; split; reflexivity.
Qed.

Theorem sub_ltb_zero x y :
  ((x - y <? 0) = (x <? y))%float /\ ((0 <? x - y) = (y <? x))%float.
Proof.
  rewrite !ltb_spec, sub_spec.
  replace (Prim2SF 0) with (S754_zero false) by reflexivity.
  apply SFltb_sub_zero; apply Prim2SF_valid.
Qed.

(** *** Order facts on numbers *)

Lemma SFcompare_nan_free x y :
  SFcompare x y = None <-> x = S754_nan \/ y = S754_nan.
Proof.
  destruct x as [sx|sx| |sx mx ex], y as [sy|sy| |sy my ey]; simpl;
    split; intros H; try discriminate; try (destruct H; discriminate);
    auto.
  all: try (destruct sx; discriminate).
Qed.

Section FloatOrder.
Variables x y z : float.

Lemma ltb_compare : (x <? y)%float = true <-> SFcompare (Prim2SF x) (Prim2SF y) = Some Lt.
Proof.
  rewrite ltb_spec. unfold SFltb.
  destruct (SFcompare _ _) as [[| |]|]; split; congruence.
Qed.

Lemma eqb_compare : (x =? y)%float = true <-> SFcompare (Prim2SF x) (Prim2SF y) = Some Eq.
Proof.
  rewrite eqb_spec. unfold SFeqb.
  destruct (SFcompare _ _) as [[| |]|]; split; congruence.
Qed.

Lemma leb_compare :
  (x <=? y)%float = true <->
  exists c, SFcompare (Prim2SF x) (Prim2SF y) = Some c /\ c <> Gt.
Proof.
  rewrite leb_spec. unfold SFleb.
  destruct (SFcompare _ _) as [[| |]|]; split;
    try (intros _; eexists; split; [reflexivity|discriminate]);
    try discriminate; try reflexivity;
    intros [c [E N]]; congruence.
Qed.
End FloatOrder.

Lemma float_ltb_trans x y z :
  (x <? y)%float = true -> (y <? z)%float = true -> (x <? z)%float = true.
Proof.
  rewrite !ltb_compare. intros H1 H2.
  apply (SFcompare_trans _ _ _ _ _ H1 H2); discriminate.
Qed.

Lemma float_ltb_leb_trans x y z :
  (x <? y)%float = true -> (y <=? z)%float = true -> (x <? z)%float = true.
Proof.
  rewrite !ltb_compare, leb_compare. intros H1 [c [H2 N]].
  apply (SFcompare_trans _ _ _ _ _ H1 H2); [discriminate | exact N].
Qed.

Lemma float_leb_trans x y z :
  (x <=? y)%float = true -> (y <=? z)%float = true -> (x <=? z)%float = true.
Proof.
  rewrite !leb_compare. intros [c1 [H1 N1]] [c2 [H2 N2]].
  exists (comp_seq c1 c2). split.
  - apply (SFcompare_trans _ _ _ _ _ H1 H2); assumption.
  - destruct c1, c2; simpl; congruence.
Qed.

Lemma float_eqb_sym x y : (x =? y)%float = (y =? x)%float.
Proof.
  rewrite !eqb_spec. unfold SFeqb.
  rewrite (SFcompare_sym (Prim2SF x) (Prim2SF y)).
  destruct (SFcompare _ _) as [[| |]|]; reflexivity.
Qed.

Lemma float_ltb_asym x y : (x <? y)%float = true -> (y <? x)%float = false.
Proof.
  rewrite !ltb_spec. unfold SFltb.
  rewrite (SFcompare_sym (Prim2SF x) (Prim2SF y)).
  destruct (SFcompare _ _) as [[| |]|]; simpl; congruence.
Qed.

Lemma float_ltb_irrefl x : (x <? x)%float = false.
Proof.
  destruct (x <? x)%float eqn:E; [|reflexivity].
  pose proof (float_ltb_asym _ _ E). congruence.
Qed.

Lemma float_ltb_not_eqb x y : (x <? y)%float = true -> (x =? y)%float = false.
Proof.
  rewrite ltb_spec, eqb_spec. unfold SFltb, SFeqb.
  destruct (SFcompare _ _) as [[| |]|]; congruence.
Qed.


(** Two numbers that are not [NaN] are equal or ordered one way. *)
Lemma float_trichotomy x y :
  is_nan x = false -> is_nan y = false ->
  (x =? y)%float = false ->
  (x <? y)%float || (y <? x)%float = true.
Proof.
  rewrite !is_nan_spec, eqb_spec, !ltb_spec. unfold SFeqb, SFltb.
  rewrite (SFcompare_sym (Prim2SF x) (Prim2SF y)).
  destruct (SFcompare (Prim2SF x) (Prim2SF y)) as [[| |]|] eqn:E;
    simpl; try congruence.
  apply SFcompare_nan_free in E. intros Hx Hy _.
  destruct E as [E|E]; rewrite E in *; discriminate.
Qed.

(** Equal numbers compare alike with any third one. *)
Lemma float_eqb_ltb_l x y z :
  (x =? y)%float = true -> (x <? z)%float = (y <? z)%float.
Proof.
  intros E. pose proof E as E'. rewrite float_eqb_sym in E'.
  apply eqb_compare in E, E'.
  destruct (y <? z)%float eqn:L.
  - apply ltb_compare in L. apply ltb_compare.
    apply (SFcompare_trans _ _ _ _ _ E L); discriminate.
  - destruct (x <? z)%float eqn:L'; [|reflexivity].
    apply ltb_compare in L'.
    pose proof (SFcompare_trans _ _ _ _ _ E' L') as T.
    apply ltb_compare in T; [congruence | discriminate | discriminate].
Qed.

Lemma float_eqb_ltb_r x y z :
  (x =? y)%float = true -> (z <? x)%float = (z <? y)%float.
Proof.
  intros E. pose proof E as E'. rewrite float_eqb_sym in E'.
  apply eqb_compare in E, E'.
  destruct (z <? y)%float eqn:L.
  - apply ltb_compare in L. apply ltb_compare.
    apply (SFcompare_trans _ _ _ _ _ L E'); discriminate.
  - destruct (z <? x)%float eqn:L'; [|reflexivity].
    apply ltb_compare in L'.
    pose proof (SFcompare_trans _ _ _ _ _ L' E) as T.
    apply ltb_compare in T; [congruence | discriminate | discriminate].
Qed.

Lemma float_eqb_trans x y z :
  (x =? y)%float = true -> (y =? z)%float = true -> (x =? z)%float = true.
Proof.
  rewrite !eqb_compare. intros H1 H2.
  apply (SFcompare_trans _ _ _ _ _ H1 H2); discriminate.
Qed.


(** ** [safeNumber] and [calculateRoi] *)

Lemma safeNumber_number_finite n :
  isFinite (safeNumber (VNumber n)) = true.
Proof.
  simpl. destruct (isFinite n) eqn:E; [exact E | reflexivity].
Qed.

(** C1. [calculateRoi revenue time] is [revenue / time] when both are
    finite and [time > 0]; it is [0] when [time <= 0] or when either
    operand is not finite; [calculateRoi 100 0 = 0],
    [calculateRoi 100 4 = 25] and [calculateRoi (-50) 2 = -25]. *)
Theorem calculateRoi_spec (revenue time : float) :
  (isFinite revenue = true -> isFinite time = true ->
   (0 <? time)%float = true ->
   calculateRoi revenue time = (revenue / time)%float)
  /\ ((time <=? 0)%float = true \/ isFinite revenue = false
      \/ isFinite time = false ->
      calculateRoi revenue time = 0%float)
  /\ calculateRoi 100 0 = 0%float
  /\ calculateRoi 100 4 = 25%float
  /\ calculateRoi (-50) 2 = (-25)%float.
Proof.
  split; [|split; [|repeat split; reflexivity]].
  - intros Hr Ht Hpos. unfold calculateRoi. simpl.
    rewrite Hr, Ht. cbv iota. rewrite Hr, Ht, (pos_not_le_zero _ Hpos).
    reflexivity.
  - intros H. unfold calculateRoi. simpl.
    destruct (isFinite time) eqn:Ht.
    + rewrite Ht.
      destruct (time <=? 0)%float eqn:Hle.
      * rewrite !orb_true_r. reflexivity.
      * destruct H as [H | [H | H]]; try discriminate.
        rewrite H. cbv iota.
        replace (isFinite 0) with true by reflexivity.
        simpl. apply zero_div_pos; assumption.
    + replace (isFinite 0) with true by reflexivity.
      replace (0 <=? 0)%float with true by reflexivity.
      rewrite !orb_true_r. reflexivity.
Qed.

Lemma calculateRoi_spec_witness :
  calculateRoi 7 2 = (7 / 2)%float /\ calculateRoi 7 (-2) = 0%float.
Proof.
  split.
  - apply (proj1 (calculateRoi_spec 7 2)); reflexivity.
  - apply (proj1 (proj2 (calculateRoi_spec 7 (-2)))). left. reflexivity.
Defined.

(** *** [calculateRoi] never returns [NaN] *)

Lemma shr_fexp_nonneg m e l :
  0 <= m -> 0 <= shr_m (fst (shr_fexp prec emax m e l)).
Proof.
  intros Hm. unfold shr_fexp, shr.
  destruct (fexp prec emax (Zdigits2 m + e) - e) as [|n|n]; simpl fst;
    rewrite ?shr_m_of_loc; trivial.
  apply iter_shr_1_m. rewrite shr_m_of_loc. exact Hm.
Qed.

Lemma binary_round_aux_not_nan s m e l :
  0 <= m -> binary_round_aux prec emax s m e l <> S754_nan.
Proof.
  intros Hm. unfold binary_round_aux.
  pose proof (shr_fexp_nonneg m e l Hm) as H1.
  destruct (shr_fexp prec emax m e l) as [mrs' e']. simpl in H1.
  assert (Hr : 0 <= round_nearest_even (shr_m mrs') (loc_of_shr_record mrs')).
  { destruct (loc_of_shr_record mrs') as [|[| |]]; simpl; try lia.
    destruct (Z.even (shr_m mrs')); lia. }
  pose proof (shr_fexp_nonneg _ e' loc_Exact Hr) as H2.
  destruct (shr_fexp prec emax _ e' loc_Exact) as [mrs'' e'']. simpl in H2.
  destruct (shr_m mrs'') as [|q|q]; try lia; try discriminate.
  destruct (e'' <=? emax - prec); discriminate.
Qed.

Lemma SFdiv_core_nonneg mx ex my ey :
  0 <= fst (fst (SFdiv_core_binary prec emax (Zpos mx) ex (Zpos my) ey)).
Proof.
  unfold SFdiv_core_binary.
  set (s := ex - ey - _).
  set (m' := match s with Z0 => Zpos mx | Zpos _ => Z.shiftl (Zpos mx) s
                     | Zneg _ => 0 end).
  assert (Hm : 0 <= m').
  { unfold m'. destruct s; try lia. apply Z.shiftl_nonneg. lia. }
  pose proof (Z.div_pos m' (Zpos my) Hm ltac:(lia)) as Hq.
  unfold Z.div in Hq. destruct (Z.div_eucl m' (Zpos my)) as [q r].
  exact Hq.
Qed.

Lemma div_finite_not_nan r t :
  isFinite r = true -> isFinite t = true -> (t <=? 0)%float = false ->
  is_nan (r / t) = false.
Proof.
  rewrite !isFinite_spec, leb_spec, is_nan_spec, div_spec, Prim2SF_zero.
  unfold SF64div, SFleb.
  destruct (Prim2SF r) as [sr|sr| |sr mr er], (Prim2SF t) as [st|st| |st mt et];
    simpl; try discriminate; try reflexivity; intros _ _ _.
  pose proof (SFdiv_core_nonneg mr er mt et) as Hq.
  destruct (SFdiv_core_binary prec emax (Zpos mr) er (Zpos mt) et)
    as [[q e'] l]. simpl in Hq.
  pose proof (binary_round_aux_not_nan (xorb sr st) q e' l Hq) as Hn.
  destruct (binary_round_aux prec emax (xorb sr st) q e' l);
    try reflexivity. contradiction.
Qed.

Lemma calculateRoi_never_nan revenue time :
  is_nan (calculateRoi revenue time) = false.
Proof.
  unfold calculateRoi.
  pose proof (safeNumber_number_finite revenue) as Hr.
  pose proof (safeNumber_number_finite time) as Ht.
  cbv zeta. rewrite Hr, Ht. cbn [negb orb].
  destruct (safeNumber (VNumber time) <=? 0)%float eqn:E; [reflexivity|].
  apply div_finite_not_nan; assumption.
Qed.

(** C4 (failing input).  The guards keep [NaN] out for every input.
    They do not keep [Infinity] out: with both operands finite and the
    divisor positive the division goes ahead, and the quotient of the
    largest finite number by one half overflows binary64. *)
Theorem calculateRoi_overflow :
  let max_value := 0x1.fffffffffffffp+1023%float in
  (forall revenue time, is_nan (calculateRoi revenue time) = false)
  /\ isFinite max_value = true
  /\ isFinite 0.5 = true
  /\ (0 <? 0.5)%float = true
  /\ calculateRoi max_value 0.5 = infinity
  /\ isFinite (calculateRoi max_value 0.5) = false.
Proof.
  split; [exact calculateRoi_never_nan | repeat split; reflexivity].
Qed.

Lemma safeNumber_finite v : isFinite (safeNumber v) = true.
Proof.
  destruct v as [ | | b | n | s | r ]; try reflexivity.
  - apply safeNumber_number_finite.
  - simpl. destruct (trim s) as [|c t]; [reflexivity|].
    destruct (isFinite (StringToNumber (c :: t))) eqn:E;
      [exact E | reflexivity].
Qed.

(** C3. [safeNumber v] is [v] for a finite number, the parsed value for a
    string whose trimmed form parses to a finite number, and [0] in every
    other case, among them ["abc"], [null], [NaN], [Infinity], the empty
    string and a string of white space. *)
Theorem safeNumber_spec (v : value) :
  (forall n, v = VNumber n -> isFinite n = true -> safeNumber v = n)
  /\ (forall s, v = VString s ->
      isFinite (StringToNumber (trim s)) = true ->
      safeNumber v = StringToNumber (trim s))
  /\ ((forall n, v = VNumber n -> isFinite n = false) ->
      (forall s, v = VString s ->
         isFinite (StringToNumber (trim s)) = false) ->
      safeNumber v = 0%float)
  /\ isFinite (safeNumber v) = true
  /\ safeNumber (VString (lit "abc")) = 0%float
  /\ safeNumber VNull = 0%float
  /\ safeNumber (VNumber nan) = 0%float
  /\ safeNumber (VNumber infinity) = 0%float
  /\ safeNumber (VString []) = 0%float
  /\ safeNumber (VString (lit "   ")) = 0%float
  /\ safeNumber (VNumber 12.5) = 12.5%float
  /\ safeNumber (VString (lit " 12.5 ")) = 12.5%float
  /\ safeNumber (VString (lit "-3e2")) = (-300)%float.
Proof.
  split; [|split; [|split; [|split; [|repeat split; reflexivity]]]].
  - intros n -> Hn. simpl. rewrite Hn. reflexivity.
  - intros s -> Hs. simpl. destruct (trim s) as [|c t]; [reflexivity|].
    rewrite Hs. reflexivity.
  - intros Hn Hs. destruct v as [ | | b | n | s | r ]; try reflexivity.
    + simpl. rewrite (Hn n eq_refl). reflexivity.
    + specialize (Hs s eq_refl). simpl.
      destruct (trim s) as [|c t]; [reflexivity|].
      rewrite Hs. reflexivity.
  - apply safeNumber_finite.
Qed.

Lemma safeNumber_spec_witness :
  safeNumber (VNumber 3) = 3%float
  /\ safeNumber (VString (lit "42")) = 42%float
  /\ safeNumber (VBoolean true) = 0%float.
Proof.
  split; [|split].
  - apply (proj1 (safeNumber_spec (VNumber 3)) 3%float); reflexivity.
  - apply (proj1 (proj2 (safeNumber_spec (VString (lit "42")))) (lit "42"));
      reflexivity.
  - apply (proj1 (proj2 (proj2 (safeNumber_spec (VBoolean true)))));
      intros ? H; discriminate H.
Defined.

(** ** The initial task list *)

(** C5. The initialiser never throws.  It yields the empty list when
    nothing is stored, when the stored text does not parse, and when it
    parses to something that is not an array; otherwise it yields the
    parsed array. *)
Theorem initialTasks_spec
  (getItem : jsstring -> completion (option jsstring))
  (parse : jsstring -> completion json) :
  let init := initialTasks getItem parse in
  (exists items, init = Normal items)
  /\ (forall e, getItem STORAGE_KEY = Throw e -> init = Normal [])
  /\ (getItem STORAGE_KEY = Normal None -> init = Normal [])
  /\ (getItem STORAGE_KEY = Normal (Some []) -> init = Normal [])
  /\ (forall raw e, getItem STORAGE_KEY = Normal (Some raw) ->
        parse raw = Throw e -> init = Normal [])
  /\ (forall raw v, getItem STORAGE_KEY = Normal (Some raw) ->
        parse raw = Normal v -> isArray v = false -> init = Normal [])
  /\ (forall raw items, getItem STORAGE_KEY = Normal (Some raw) ->
        raw <> [] -> parse raw = Normal (JArr items) ->
        init = Normal items).
Proof.
  unfold initialTasks. cbv zeta.
  split; [|repeat split].
  - destruct (getItem STORAGE_KEY) as [[[|c raw]|]|e]; simpl;
      try (eexists; reflexivity).
    destruct (parse (c :: raw)) as [v|e]; simpl; eexists; reflexivity.
  - intros e ->. reflexivity.
  - intros ->. reflexivity.
  - intros ->. reflexivity.
  - intros raw e -> Hp. destruct raw; [reflexivity|].
    simpl. rewrite Hp. reflexivity.
  - intros raw v -> Hp Hv. destruct raw; [reflexivity|].
    simpl. rewrite Hp. simpl. destruct v; try reflexivity. discriminate Hv.
  - intros raw items -> Hne Hp. destruct raw; [contradiction|].
    simpl. rewrite Hp. reflexivity.
Qed.

Lemma initialTasks_spec_witness :
  initialTasks (Host.getItem (Some (lit "[null]"))) Host.JSON_parse
    = Normal [JNull]
  /\ initialTasks (Host.getItem (Some (lit "{}"))) Host.JSON_parse
    = Normal []
  /\ initialTasks (Host.getItem (Some (lit "[nul"))) Host.JSON_parse
    = Normal []
  /\ initialTasks (Host.getItem None) Host.JSON_parse = Normal [].
Proof.
  split; [|split; [|split]].
  - pose proof (initialTasks_spec (Host.getItem (Some (lit "[null]")))
                  Host.JSON_parse) as H.
    cbv zeta in H. destruct H as (_ & _ & _ & _ & _ & _ & H).
    apply (H (lit "[null]")); [reflexivity | discriminate | reflexivity].
  - pose proof (initialTasks_spec (Host.getItem (Some (lit "{}")))
                  Host.JSON_parse) as H.
    cbv zeta in H. destruct H as (_ & _ & _ & _ & _ & H & _).
    apply (H (lit "{}") (JObj [])); reflexivity.
  - pose proof (initialTasks_spec (Host.getItem (Some (lit "[nul")))
                  Host.JSON_parse) as H.
    cbv zeta in H. destruct H as (_ & _ & _ & _ & H & _).
    apply (H (lit "[nul") SyntaxError); reflexivity.
  - pose proof (initialTasks_spec (Host.getItem None) Host.JSON_parse) as H.
    cbv zeta in H. destruct H as (_ & _ & H & _).
    apply H. reflexivity.
Defined.

(** ** Formatting *)

(** C6. [formatCurrency] formats the value, with a non-finite [n]
    replaced by [0], through the currency formatter; when that throws it
    returns ['$'] followed by the two-decimal [formatNumber] of the value;
    it never throws.  [formatNumber] replaces a non-finite input by [0]
    and asks for exactly [decimals] fraction digits, two by default.  The
    host is assumed not to throw when asked for two fraction digits. *)
Theorem formatCurrency_spec
  (toLocaleString : float -> nat -> nat -> completion jsstring)
  (NumberFormat_currency : jsstring -> float -> completion jsstring)
  (two_digits_ok : forall v, exists s, toLocaleString v 2%nat 2%nat = Normal s)
  (n : float) (currency : jsstring) :
  let v := if isFinite n then n else 0%float in
  let fmtC := formatCurrency toLocaleString NumberFormat_currency in
  let fmtN := formatNumber toLocaleString in
  (forall s, NumberFormat_currency currency v = Normal s ->
     fmtC n currency = Normal s)
  /\ (forall e, NumberFormat_currency currency v = Throw e ->
      exists r, fmtN v 2%nat = Normal r
                /\ fmtC n currency = Normal (lit "$" ++ r))
  /\ (exists s, fmtC n currency = Normal s)
  /\ (forall decimals, fmtN n decimals = toLocaleString v decimals decimals)
  /\ formatNumber_default toLocaleString n = toLocaleString v 2%nat 2%nat
  /\ isFinite v = true.
Proof.
  cbv zeta. unfold formatCurrency, formatNumber_default, formatNumber.
  assert (Hv : isFinite (if isFinite n then n else 0%float) = true).
  { destruct (isFinite n) eqn:E; [exact E | reflexivity]. }
  rewrite !Hv.
  destruct (two_digits_ok (if isFinite n then n else 0%float)) as [r Hr].
  split; [|split; [|split; [|split; [|split]]]]; trivial.
  - intros s ->. reflexivity.
  - intros e ->. exists r. simpl. rewrite Hr. split; reflexivity.
  - destruct (NumberFormat_currency currency _) as [s|e]; simpl.
    + exists s. reflexivity.
    + rewrite Hr. simpl. eexists. reflexivity.
Qed.

Lemma formatCurrency_spec_witness :
  formatCurrency Host.toLocaleString Host.NumberFormat_currency
    1234.5 (lit "USD") = Normal (lit "$1,234.50")
  /\ formatCurrency Host.toLocaleString Host.NumberFormat_currency
       infinity (lit "dollars") = Normal (lit "$0.00")
  /\ formatNumber Host.toLocaleString nan 1 = Normal (lit "0.0").
Proof.
  assert (ok : forall v, exists s,
             Host.toLocaleString v 2%nat 2%nat = Normal s).
  { intros v. eexists. reflexivity. }
  pose (spec := formatCurrency_spec Host.toLocaleString
                  Host.NumberFormat_currency ok).
  split; [|split].
  - apply (proj1 (spec 1234.5%float (lit "USD"))). reflexivity.
  - destruct (proj1 (proj2 (spec infinity (lit "dollars")))
                RangeError eq_refl) as [r [Hr Hc]].
    rewrite Hc. injection Hr as <-. reflexivity.
  - rewrite (proj1 (proj2 (proj2 (proj2 (spec nan (lit "USD")))))).
    reflexivity.
Defined.

(** ** Delete and undo *)

Lemma jsstring_eqb_eq s t : jsstring_eqb s t = true <-> s = t.
Proof.
  revert t. induction s as [|a s IH]; intros [|b t]; simpl;
    try (split; [discriminate | congruence]); [tauto|].
  unfold unit_eqb. rewrite andb_true_iff, N.eqb_eq, IH.
  split; [intros [-> ->]; reflexivity | intros H; injection H; auto].
Qed.

Lemma jsstring_eqb_refl s : jsstring_eqb s s = true.
Proof. apply jsstring_eqb_eq. reflexivity. Qed.

Lemma jsstring_eqb_neq s t : jsstring_eqb s t = false <-> s <> t.
Proof.
  rewrite <- jsstring_eqb_eq. destruct (jsstring_eqb s t); split;
    congruence.
Qed.

Lemma filter_other_ids i l :
  ~ In i (map id l) ->
  filter (fun x => negb (jsstring_eqb (id x) i)) l = l.
Proof.
  induction l as [|x l IH]; simpl; intros Hn; [reflexivity|].
  destruct (jsstring_eqb (id x) i) eqn:E.
  - apply jsstring_eqb_eq in E. tauto.
  - simpl. f_equal. apply IH. tauto.
Qed.

Lemma find_by_id l t :
  NoDup (map id l) -> In t l ->
  find (fun x => jsstring_eqb (id x) (id t)) l = Some t.
Proof.
  induction l as [|x l IH]; simpl; intros Hnd Hin; [contradiction|].
  apply NoDup_cons_iff in Hnd. destruct Hnd as [Hx Hl].
  destruct Hin as [-> | Hin].
  - rewrite jsstring_eqb_refl. reflexivity.
  - destruct (jsstring_eqb (id x) (id t)) eqn:E.
    + apply jsstring_eqb_eq in E. exfalso. apply Hx. rewrite E.
      apply in_map. exact Hin.
    + apply IH; auto.
Qed.

Lemma filter_removes_one l t :
  NoDup (map id l) -> In t l ->
  Permutation l
    (t :: filter (fun x => negb (jsstring_eqb (id x) (id t))) l).
Proof.
  induction l as [|x l IH]; simpl; intros Hnd Hin; [contradiction|].
  apply NoDup_cons_iff in Hnd. destruct Hnd as [Hx Hl].
  destruct Hin as [-> | Hin].
  - rewrite jsstring_eqb_refl. simpl.
    rewrite filter_other_ids by exact Hx. reflexivity.
  - destruct (jsstring_eqb (id x) (id t)) eqn:E.
    + apply jsstring_eqb_eq in E. exfalso. apply Hx. rewrite E.
      apply in_map. exact Hin.
    + simpl. rewrite perm_swap. constructor. apply IH; auto.
Qed.

(** C8. When the ids are pairwise distinct and the list holds a task
    with id [i], [deleteTask i] followed by [undoDelete] yields a list
    with the same tasks, the deleted one now at the front; the
    [lastDeleted] slot is cleared and the snackbar closed. *)
Theorem delete_then_undo (st : TasksState) (i : jsstring) (t : Task)
  (distinct : NoDup (map id (tasks st)))
  (present : In t (tasks st))
  (has_id : id t = i) :
  let st' := run (deleteTask i ;;; undoDelete) st in
  tasks st'
    = t :: filter (fun x => negb (jsstring_eqb (id x) i)) (tasks st)
  /\ Permutation (tasks st) (tasks st')
  /\ lastDeleted st' = None
  /\ snackbarOpen st' = false.
Proof.
  cbv zeta. subst i.
  assert (E : run (deleteTask (id t) ;;; undoDelete) st
              = {| tasks := t :: filter (fun x =>
                                 negb (jsstring_eqb (id x) (id t)))
                                 (tasks st);
                   lastDeleted := None; snackbarOpen := false |}).
  { unfold run, seq, deleteTask, undoDelete, setTasks, seq.
    rewrite (find_by_id _ t distinct present). reflexivity. }
  rewrite E. simpl. repeat split.
  apply filter_removes_one; assumption.
Qed.

Lemma delete_then_undo_witness :
  let st := {| tasks := [Samples.call; Samples.demo; Samples.mail];
               lastDeleted := None; snackbarOpen := false |} in
  let st' := run (deleteTask (lit "2-b") ;;; undoDelete) st in
  tasks st' = [Samples.demo; Samples.call; Samples.mail]
  /\ lastDeleted st' = None /\ snackbarOpen st' = false.
Proof.
  cbv zeta.
  assert (distinct : NoDup (map id [Samples.call; Samples.demo;
                                    Samples.mail])).
  { repeat constructor; simpl; intros H;
      repeat (destruct H as [H|H]; [discriminate H|]); exact H. }
  destruct (delete_then_undo
              {| tasks := [Samples.call; Samples.demo; Samples.mail];
                 lastDeleted := None; snackbarOpen := false |}
              (lit "2-b") Samples.demo distinct
              (or_intror (or_introl eq_refl)) eq_refl)
    as (Ht & _ & Hl & Hs).
  split; [|split]; [rewrite Ht; reflexivity | exact Hl | exact Hs].
Defined.

(** ** CSV: escaping and splitting *)

Lemma includes_unit_cons c x s :
  includes_unit c (x :: s) = unit_eqb c x || includes_unit c s.
Proof. reflexivity. Qed.

Lemma unit_eqb_sym a b : unit_eqb a b = unit_eqb b a.
Proof. apply N.eqb_sym. Qed.

(** Outside quotes, units other than comma and quote are appended. *)
Lemma loop_plain f : forall tail res cur,
  includes_unit comma f = false -> includes_unit dquote f = false ->
  splitCsvLine_loop (f ++ tail) res cur false
  = splitCsvLine_loop tail res (cur ++ f) false.
Proof.
  induction f as [|c f IH]; intros tail res cur Hc Hq; simpl.
  - rewrite app_nil_r. reflexivity.
  - rewrite includes_unit_cons in Hc, Hq.
    apply orb_false_iff in Hc, Hq. destruct Hc as [Hc Hc'], Hq as [Hq Hq'].
    rewrite unit_eqb_sym, Hc, unit_eqb_sym, Hq.
    rewrite IH by assumption. rewrite <- app_assoc. reflexivity.
Qed.

(** Inside quotes, the doubled quotes of an escaped field are read back
    as the field. *)
Lemma loop_quoted f : forall tail res cur,
  splitCsvLine_loop (replaceAll_unit dquote [dquote; dquote] f ++ tail)
    res cur true
  = splitCsvLine_loop tail res (cur ++ f) true.
Proof.
  unfold replaceAll_unit.
  induction f as [|c f IH]; intros tail res cur; simpl.
  - rewrite app_nil_r. reflexivity.
  - destruct (unit_eqb c dquote) eqn:E.
    + apply N.eqb_eq in E. subst c. simpl.
      rewrite IH, <- app_assoc. reflexivity.
    + simpl. rewrite E, IH, <- app_assoc. reflexivity.
Qed.

Lemma loop_field f tail res :
  field_end tail ->
  splitCsvLine_loop (escapeCsv f ++ tail) res [] false
  = splitCsvLine_loop tail res f false.
Proof.
  intros Hend. unfold escapeCsv.
  destruct (includes_unit comma f) eqn:Hc; simpl.
  2: destruct (includes_unit dquote f) eqn:Hq; simpl.
  3: destruct (includes_unit newline f) eqn:Hn; simpl.
  4: { rewrite loop_plain by assumption. reflexivity. }
  all: rewrite <- app_assoc, loop_quoted; simpl;
    destruct Hend as [-> | [tail' ->]]; reflexivity.
Qed.

Lemma csvLine_cons f g fs :
  csvLine (f :: g :: fs) = escapeCsv f ++ comma :: csvLine (g :: fs).
Proof. reflexivity. Qed.

Lemma loop_csvLine fs : forall res,
  fs <> [] ->
  splitCsvLine_loop (csvLine fs) res [] false = res ++ fs.
Proof.
  induction fs as [|f fs IH]; intros res Hne; [contradiction|].
  destruct fs as [|g fs].
  - unfold csvLine. simpl.
    rewrite <- (app_nil_r (escapeCsv f)), loop_field by (left; reflexivity).
    reflexivity.
  - rewrite csvLine_cons, loop_field by (right; eexists; reflexivity).
    simpl splitCsvLine_loop at 1.
    rewrite IH by discriminate. rewrite <- app_assoc. reflexivity.
Qed.

Lemma trimStart_head c f : is_white c = false -> trimStart (c :: f) = c :: f.
Proof. intros H. simpl. rewrite H. reflexivity. Qed.

Lemma trim_no_edge_white f : edge_white f = false -> trim f = f.
Proof.
  destruct f as [|c f]; [reflexivity|].
  unfold edge_white. intros H. apply orb_false_iff in H. destruct H as [Hh Hl].
  change (trim (c :: f)) with (trimEnd (trimStart (c :: f))).
  rewrite (trimStart_head c f Hh). unfold trimEnd.
  destruct (exists_last (l := c :: f)) as [f0 [z E]]; [discriminate|].
  rewrite E in *. rewrite last_last in Hl.
  rewrite rev_app_distr.
  change (rev [z] ++ rev f0) with (z :: rev f0).
  rewrite (trimStart_head z (rev f0) Hl).
  change (z :: rev f0) with (rev [z] ++ rev f0).
  rewrite <- rev_app_distr, rev_involutive. reflexivity.
Qed.

Lemma split_csvLine_general fields :
  fields <> [] ->
  Forall (fun f => edge_white f = false) fields ->
  splitCsvLine (csvLine fields) = fields.
Proof.
  intros Hne Hall. unfold splitCsvLine.
  rewrite loop_csvLine by exact Hne. simpl. clear Hne.
  induction Hall as [|f fs Hf _ IH]; simpl; [reflexivity|].
  rewrite trim_no_edge_white by exact Hf. f_equal. exact IH.
Qed.

(** C9 (as the claim states it, refuted).  The empty list of fields is
    written as the empty line, which is read back as one empty field. *)
Lemma csv_roundtrip_empty_fails :
  ~ (forall fields : list jsstring,
       Forall (fun f => includes_unit newline f = false
                        /\ edge_white f = false) fields ->
       splitCsvLine (join [comma] (map escapeCsv fields)) = fields).
Proof.
  intros H. specialize (H [] (Forall_nil _)). discriminate H.
Qed.

(** C9 (amended).  For every non-empty list of fields without newline
    and without white space at either end, splitting the comma-join of
    the escaped fields returns the list; [escapeCsv] quotes a field that
    holds a comma, a quote or a newline, doubling its quotes, and leaves
    any other field as it is. *)
Theorem csv_roundtrip (fields : list jsstring)
  (nonempty : fields <> [])
  (clean : Forall (fun f => includes_unit newline f = false
                            /\ edge_white f = false) fields) :
  splitCsvLine (join [comma] (map escapeCsv fields)) = fields
  /\ (forall f,
        includes_unit comma f || includes_unit dquote f
          || includes_unit newline f = true ->
        escapeCsv f
        = [dquote] ++ replaceAll_unit dquote [dquote; dquote] f ++ [dquote])
  /\ (forall f,
        includes_unit comma f || includes_unit dquote f
          || includes_unit newline f = false ->
        escapeCsv f = f).
Proof.
  split; [|split].
  - apply split_csvLine_general; [exact nonempty|].
    eapply Forall_impl; [|exact clean]. simpl. tauto.
  - intros f H. unfold escapeCsv. rewrite H. reflexivity.
  - intros f H. unfold escapeCsv. rewrite H. reflexivity.
Qed.

Lemma csv_roundtrip_witness :
  let fields := [lit "Call, then mail";
                 lit "say " ++ [dquote] ++ lit "hi" ++ [dquote];
                 []; lit "plain"]
  in splitCsvLine (join [comma] (map escapeCsv fields)) = fields.
Proof.
  cbv zeta.
  apply (csv_roundtrip
           [lit "Call, then mail";
            lit "say " ++ [dquote] ++ lit "hi" ++ [dquote];
            []; lit "plain"]).
  - discriminate.
  - repeat constructor.
Defined.

(** ** The summary: Average ROI and grade *)

Lemma filter_map_commute {A B} (f : A -> B) (p : B -> bool) l :
  filter p (map f l) = map f (filter (fun x => p (f x)) l).
Proof.
  induction l as [|x l IH]; simpl; [reflexivity|].
  destruct (p (f x)); simpl; rewrite IH; reflexivity.
Qed.

Lemma filter_idem {A} (p : A -> bool) l : filter p (filter p l) = filter p l.
Proof.
  induction l as [|x l IH]; simpl; [reflexivity|].
  destruct (p x) eqn:E; simpl; rewrite ?E, IH; reflexivity.
Qed.

(** C10 (as the claim states it, refuted).  The ROI of [Samples.huge]
    is [Infinity], which is strictly positive; the summary leaves it out,
    so the average is [0] and the grade the dash, where the mean over the
    strictly positive ROIs is [Infinity] and would be graded ['A']. *)
Lemma avgRoi_positive_mean_fails :
  ~ (forall tasks, avgRoi tasks = spec_avgRoi tasks).
Proof.
  intros H. specialize (H [Samples.huge]).
  vm_compute in H. discriminate H.
Qed.

(** C10 (amended).  The Average ROI is the mean of [calculateRoi] over
    the tasks whose computed ROI is finite and strictly positive, the
    others being left out, and [0] when there is none; the grade is ['A']
    from 5, ['B'] from 2, ['C'] above 0, and the dash otherwise. *)
Theorem avgRoi_spec (tasks : list Task) :
  let roi_of := fun t => calculateRoi (revenue t) (time t) in
  let counted :=
    filter (fun t => isFinite (roi_of t) && (0 <? roi_of t)%float) tasks in
  let avg := average_roi (totals tasks) in
  avg = avgRoi tasks
  /\ (counted = [] -> avg = 0%float)
  /\ (counted <> [] ->
      avg = (fold_left (fun a b => a + b) (map roi_of counted) 0
             / number_of_nat (List.length counted))%float)
  /\ avgRoi counted = avgRoi tasks
  /\ grade (totals tasks) = grade_of avg
  /\ ((5 <=? avg)%float = true -> grade_of avg = lit "A")
  /\ ((5 <=? avg)%float = false -> (2 <=? avg)%float = true ->
      grade_of avg = lit "B")
  /\ ((2 <=? avg)%float = false -> (0 <? avg)%float = true ->
      grade_of avg = lit "C")
  /\ ((0 <? avg)%float = false -> grade_of avg = grade_dash).
Proof.
  cbv zeta. simpl average_roi. simpl grade.
  assert (E : validRois tasks
              = map (fun t => calculateRoi (revenue t) (time t))
                  (filter (fun t =>
                     isFinite (calculateRoi (revenue t) (time t))
                     && (0 <? calculateRoi (revenue t) (time t))%float)
                     tasks)).
  { unfold validRois. apply filter_map_commute. }
  split; [reflexivity|]. split; [|split; [|split; [|split]]].
  - intros H. unfold avgRoi. rewrite E, H. reflexivity.
  - intros H. unfold avgRoi. rewrite E, length_map.
    destruct (filter _ tasks) as [|t l] eqn:F; [contradiction|].
    reflexivity.
  - unfold avgRoi, validRois.
    rewrite !filter_map_commute, filter_idem. reflexivity.
  - reflexivity.
  - unfold grade_of. split; [|split; [|split]].
    + intros ->. reflexivity.
    + intros -> ->. reflexivity.
    + intros H2 H0.
      destruct (5 <=? avgRoi tasks)%float eqn:H5.
      * assert (T : (2 <=? avgRoi tasks)%float = true)
          by (apply (float_leb_trans 2 5); [reflexivity | exact H5]).
        congruence.
      * rewrite H2, H0. reflexivity.
    + intros H0.
      assert (above : forall c, (0 <? c)%float = true ->
                (c <=? avgRoi tasks)%float = false).
      { intros c Hc. destruct (c <=? avgRoi tasks)%float eqn:L;
          [|reflexivity].
        pose proof (float_ltb_leb_trans 0 c _ Hc L). congruence. }
      rewrite (above 5%float), (above 2%float), H0 by reflexivity.
      reflexivity.
Qed.

Lemma avgRoi_spec_witness :
  let tasks := [Samples.call; Samples.demo; Samples.mail; Samples.huge] in
  average_roi (totals tasks) = 87.5%float
  /\ grade (totals tasks) = lit "A".
Proof.
  cbv zeta.
  pose proof (avgRoi_spec [Samples.call; Samples.demo; Samples.mail;
                           Samples.huge]) as H.
  cbv zeta in H. destruct H as (_ & _ & Hmean & _ & Hg & HA & _).
  split.
  - rewrite Hmean; [reflexivity|]. vm_compute. discriminate.
  - rewrite Hg. apply HA. reflexivity.
Defined.

(** ** The comparator of the sorted view *)

Lemma roi_or_zero_not_nan r : is_nan (roi_or_zero r) = false.
Proof.
  unfold roi_or_zero. destruct (r =? 0)%float; simpl; [reflexivity|].
  destruct (is_nan r) eqn:E; [reflexivity | exact E].
Qed.

(** For a ROI that is a number the key compares as the ROI itself. *)
Lemma roi_or_zero_eqb r : is_nan r = false -> (roi_or_zero r =? r)%float = true.
Proof.
  intros Hn. unfold roi_or_zero. rewrite Hn, orb_false_r.
  destruct (r =? 0)%float eqn:E.
  - rewrite float_eqb_sym. exact E.
  - revert Hn. unfold is_nan. destruct (r =? r)%float; simpl; congruence.
Qed.

Lemma priRank_eqb p q :
  (priRank p =? priRank q)%float = Priority_eqb p q.
Proof. destruct p, q; reflexivity. Qed.

Lemma Priority_eqb_eq p q : Priority_eqb p q = true <-> p = q.
Proof. destruct p, q; simpl; split; congruence. Qed.

Section Comparator.
Variable toLowerCase : jsstring -> jsstring.
Variable localeCompare : jsstring -> jsstring -> float.

Local Abbreviation cmp := (compareTasks toLowerCase localeCompare).
Local Abbreviation key_roi := (fun t : Task => roi_or_zero (roi t)).
Local Abbreviation key_rank := (fun t : Task => priRank (priority t)).
Local Abbreviation key_title := (fun t : Task => toLowerCase (title t)).

(** The four cases of the comparator, read by the sign of its result. *)
Lemma compareTasks_cases (a b : Task) :
  ((key_roi a =? key_roi b)%float = false ->
   (cmp a b <? 0)%float = (key_roi b <? key_roi a)%float
   /\ (0 <? cmp a b)%float = (key_roi a <? key_roi b)%float)
  /\ ((key_roi a =? key_roi b)%float = true ->
      priority a <> priority b ->
      (cmp a b <? 0)%float = (key_rank b <? key_rank a)%float
      /\ (0 <? cmp a b)%float = (key_rank a <? key_rank b)%float)
  /\ ((key_roi a =? key_roi b)%float = true ->
      priority a = priority b ->
      key_title a <> key_title b ->
      cmp a b = localeCompare (key_title a) (key_title b))
  /\ ((key_roi a =? key_roi b)%float = true ->
      priority a = priority b ->
      key_title a = key_title b ->
      (cmp a b <? 0)%float = (createdAt b <? createdAt a)%float
      /\ (0 <? cmp a b)%float = (createdAt a <? createdAt b)%float).
Proof.
  unfold compareTasks. cbv zeta.
  split; [|split; [|split]].
  - intros ->. simpl. apply sub_ltb_zero.
  - intros -> Hp. simpl. rewrite priRank_eqb.
    destruct (Priority_eqb (priority a) (priority b)) eqn:E.
    + apply Priority_eqb_eq in E. contradiction.
    + simpl. apply sub_ltb_zero.
  - intros -> Hp Ht. simpl. rewrite priRank_eqb, Hp.
    replace (Priority_eqb (priority b) (priority b)) with true
      by (destruct (priority b); reflexivity).
    simpl. apply jsstring_eqb_neq in Ht. rewrite Ht. reflexivity.
  - intros -> Hp Ht. simpl. rewrite priRank_eqb, Hp.
    replace (Priority_eqb (priority b) (priority b)) with true
      by (destruct (priority b); reflexivity).
    simpl. rewrite Ht, jsstring_eqb_refl. simpl. apply sub_ltb_zero.
Qed.

(** Sorting two tasks. *)
Lemma sort_pair (x y : Task) :
  sort cmp [x; y] = if (0 <? cmp x y)%float then [y; x] else [x; y].
Proof. reflexivity. Qed.

Lemma first_of_two (a b : Task) :
  (cmp a b <? 0)%float = true -> (0 <? cmp b a)%float = true ->
  sort cmp [a; b] = [a; b] /\ sort cmp [b; a] = [a; b].
Proof.
  intros Hab Hba. rewrite !sort_pair, Hba.
  rewrite (float_ltb_asym _ _ Hab). split; reflexivity.
Qed.
End Comparator.

(** For two ROIs that are numbers the keys compare as the ROIs do. *)
Lemma roi_or_zero_ltb (x y : float) :
  is_nan x = false -> is_nan y = false ->
  (roi_or_zero x <? roi_or_zero y)%float = (x <? y)%float.
Proof.
  intros Hx Hy.
  rewrite (float_eqb_ltb_l _ _ _ (roi_or_zero_eqb x Hx)).
  apply float_eqb_ltb_r, roi_or_zero_eqb, Hy.
Qed.

Lemma roi_or_zero_nan (r : float) : is_nan r = true -> roi_or_zero r = 0%float.
Proof.
  intros H. unfold roi_or_zero. rewrite H, orb_true_r. reflexivity.
Qed.

(** A tie keeps the two tasks in the order they came in. *)
Lemma sort_tie (toLowerCase : jsstring -> jsstring)
  (localeCompare : jsstring -> jsstring -> float) (x y : Task) :
  compareTasks toLowerCase localeCompare x y = 0%float ->
  sort (compareTasks toLowerCase localeCompare) [x; y] = [x; y].
Proof. intros H. rewrite sort_pair, H. reflexivity. Qed.

(** The comparator on the two canonically equivalent titles. *)
Lemma canonical_pair_tie (toLowerCase : jsstring -> jsstring)
  (localeCompare : jsstring -> jsstring -> float) :
  toLowerCase [233%N] = [233%N] ->
  toLowerCase [101%N; 769%N] = [101%N; 769%N] ->
  localeCompare [233%N] [101%N; 769%N] = 0%float ->
  compareTasks toLowerCase localeCompare Samples.composed Samples.decomposed
  = 0%float.
Proof.
  intros Hc Hd H0. unfold compareTasks. simpl. rewrite Hc, Hd. exact H0.
Qed.

(** C2 (failing input).  Key by key the comparator does what the claim
    says: a larger ROI goes first (the ROI key is the ROI itself, with
    [NaN] read as [0]), then a higher priority rank with High = 3,
    Medium = 2, Low = 1, then the lower-cased title that the collation
    puts first, and between identical lower-cased titles the more recent
    [createdAt].  It leaves the claim where two lower-cased titles are
    different strings that the collation ranks as equal: the comparator
    returns that [0] and never looks at [createdAt], so the two tasks
    stay in the order they came in.  For [Samples.composed] and
    [Samples.decomposed], equal in ROI and priority and tied in title,
    the older task is sorted first. *)
Theorem comparator_order
  (toLowerCase : jsstring -> jsstring)
  (localeCompare : jsstring -> jsstring -> float)
  (a b : Task) :
  let cmp := compareTasks toLowerCase localeCompare in
  let key_roi := fun t : Task => roi_or_zero (roi t) in
  let key_rank := fun t : Task => priRank (priority t) in
  let key_title := fun t : Task => toLowerCase (title t) in
  let first := fun x y : Task =>
    sort cmp [x; y] = [x; y] /\ sort cmp [y; x] = [x; y] in
  (forall t : Task,
     (is_nan (roi t) = false -> (key_roi t =? roi t)%float = true)
     /\ (is_nan (roi t) = true -> key_roi t = 0%float))
  /\ (is_nan (roi a) = false -> is_nan (roi b) = false ->
      (roi b <? roi a)%float = true ->
      (cmp a b <? 0)%float = true /\ (0 <? cmp b a)%float = true
      /\ first a b)
  /\ ((key_roi a =? key_roi b)%float = false ->
      (cmp a b <? 0)%float = (key_roi b <? key_roi a)%float
      /\ (0 <? cmp a b)%float = (key_roi a <? key_roi b)%float
      /\ (key_roi b <? key_roi a)%float || (key_roi a <? key_roi b)%float
         = true)
  /\ ((key_roi a =? key_roi b)%float = true ->
      priority a <> priority b ->
      (cmp a b <? 0)%float = (key_rank b <? key_rank a)%float
      /\ (0 <? cmp a b)%float = (key_rank a <? key_rank b)%float
      /\ (key_rank b <? key_rank a)%float || (key_rank a <? key_rank b)%float
         = true)
  /\ ((key_roi a =? key_roi b)%float = true ->
      (key_rank b <? key_rank a)%float = true ->
      first a b)
  /\ ((key_roi a =? key_roi b)%float = true ->
      priority a = priority b ->
      key_title a <> key_title b ->
      cmp a b = localeCompare (key_title a) (key_title b)
      /\ cmp b a = localeCompare (key_title b) (key_title a)
      /\ ((localeCompare (key_title a) (key_title b) <? 0)%float = true ->
          (0 <? localeCompare (key_title b) (key_title a))%float = true ->
          first a b))
  /\ ((key_roi a =? key_roi b)%float = true ->
      priority a = priority b ->
      key_title a = key_title b ->
      (cmp a b <? 0)%float = (createdAt b <? createdAt a)%float
      /\ (0 <? cmp a b)%float = (createdAt a <? createdAt b)%float
      /\ ((createdAt b <? createdAt a)%float = true -> first a b))
  /\ ((key_roi a =? key_roi b)%float = true ->
      priority a = priority b ->
      key_title a <> key_title b ->
      localeCompare (key_title a) (key_title b) = 0%float ->
      localeCompare (key_title b) (key_title a) = 0%float ->
      cmp a b = 0%float /\ cmp b a = 0%float
      /\ sort cmp [a; b] = [a; b] /\ sort cmp [b; a] = [b; a])
  /\ (toLowerCase [233%N] = [233%N] ->
      toLowerCase [101%N; 769%N] = [101%N; 769%N] ->
      localeCompare [233%N] [101%N; 769%N] = 0%float ->
      (key_roi Samples.composed =? key_roi Samples.decomposed)%float = true
      /\ priority Samples.composed = priority Samples.decomposed
      /\ (createdAt Samples.composed <? createdAt Samples.decomposed)%float
         = true
      /\ cmp Samples.composed Samples.decomposed = 0%float
      /\ sort cmp [Samples.composed; Samples.decomposed]
         = [Samples.composed; Samples.decomposed])
  /\ (priRank High = 3 /\ priRank Medium = 2 /\ priRank Low = 1)%float
  /\ sort cmp [Samples.low_B; Samples.high_A]
     = [Samples.high_A; Samples.low_B]
  /\ sort cmp [Samples.call; Samples.demo] = [Samples.demo; Samples.call]
  /\ sort cmp [Samples.demo; Samples.call] = [Samples.demo; Samples.call].
Proof.
  cbv zeta.
  destruct (compareTasks_cases toLowerCase localeCompare a b)
    as (Croi & Crank & Ctitle & Ctime).
  destruct (compareTasks_cases toLowerCase localeCompare b a)
    as (Croi' & Crank' & Ctitle' & Ctime').
  split; [|split; [|split; [|split; [|split; [|split; [|split;
    [|split; [|split; [|split; [|split; [|split]]]]]]]]]]].
  - intros t. split; [apply roi_or_zero_eqb | apply roi_or_zero_nan].
  - intros Ha Hb Hlt.
    assert (K : (roi_or_zero (roi b) <? roi_or_zero (roi a))%float = true)
      by (rewrite roi_or_zero_ltb; assumption).
    pose proof (float_ltb_not_eqb _ _ K) as Hne.
    assert (Hab : (compareTasks toLowerCase localeCompare a b <? 0)%float
                  = true).
    { rewrite float_eqb_sym in Hne. rewrite (proj1 (Croi Hne)). exact K. }
    assert (Hba : (0 <? compareTasks toLowerCase localeCompare b a)%float
                  = true)
      by (rewrite (proj2 (Croi' Hne)); exact K).
    split; [exact Hab|]. split; [exact Hba|].
    apply first_of_two; assumption.
  - intros H. destruct (Croi H) as [H1 H2]. split; [exact H1|].
    split; [exact H2|].
    rewrite orb_comm.
    apply float_trichotomy; auto using roi_or_zero_not_nan.
  - intros H Hp. destruct (Crank H Hp) as [H1 H2]. split; [exact H1|].
    split; [exact H2|].
    destruct (priority a), (priority b); try reflexivity; contradiction.
  - intros H Hlt.
    assert (Hp : priority a <> priority b).
    { intros E. rewrite E, float_ltb_irrefl in Hlt. discriminate. }
    apply first_of_two.
    + rewrite (proj1 (Crank H Hp)). exact Hlt.
    + rewrite float_eqb_sym in H.
      rewrite (proj2 (Crank' H (not_eq_sym Hp))). exact Hlt.
  - intros H Hp Ht.
    pose proof (Ctitle H Hp Ht) as Eab.
    assert (Eba : compareTasks toLowerCase localeCompare b a
                  = localeCompare (toLowerCase (title b))
                      (toLowerCase (title a))).
    { rewrite float_eqb_sym in H.
      exact (Ctitle' H (eq_sym Hp) (not_eq_sym Ht)). }
    split; [exact Eab|]. split; [exact Eba|].
    intros L1 L2. apply first_of_two; [rewrite Eab | rewrite Eba]; assumption.
  - intros H Hp Ht. destruct (Ctime H Hp Ht) as [H1 H2].
    split; [exact H1|]. split; [exact H2|].
    intros Hlt. apply first_of_two.
    + rewrite H1. exact Hlt.
    + rewrite float_eqb_sym in H.
      rewrite (proj2 (Ctime' H (eq_sym Hp) (eq_sym Ht))). exact Hlt.
  - intros H Hp Ht L1 L2.
    assert (Eab : compareTasks toLowerCase localeCompare a b = 0%float)
      by (rewrite (Ctitle H Hp Ht); exact L1).
    assert (Eba : compareTasks toLowerCase localeCompare b a = 0%float).
    { rewrite float_eqb_sym in H.
      rewrite (Ctitle' H (eq_sym Hp) (not_eq_sym Ht)). exact L2. }
    split; [exact Eab|]. split; [exact Eba|].
    split; apply sort_tie; assumption.
  - intros Hc Hd H0.
    pose proof (canonical_pair_tie toLowerCase localeCompare Hc Hd H0) as E.
    split; [reflexivity|]. split; [reflexivity|]. split; [reflexivity|].
    split; [exact E | apply sort_tie, E].
  - repeat split.
  - reflexivity.
  - reflexivity.
  - reflexivity.
Qed.

Lemma comparator_order_witness :
  let cmp := compareTasks Host.toLowerCase Host.localeCompare in
  (sort cmp [Samples.high_A; Samples.low_B]
     = [Samples.high_A; Samples.low_B]
   /\ sort cmp [Samples.low_B; Samples.high_A]
      = [Samples.high_A; Samples.low_B])
  /\ (sort cmp [Samples.newer; Samples.older]
        = [Samples.newer; Samples.older]
      /\ sort cmp [Samples.older; Samples.newer]
         = [Samples.newer; Samples.older])
  /\ (sort cmp [Samples.demo; Samples.mail] = [Samples.demo; Samples.mail]
      /\ sort cmp [Samples.mail; Samples.demo]
         = [Samples.demo; Samples.mail])
  /\ sort cmp [Samples.composed; Samples.decomposed]
     = [Samples.composed; Samples.decomposed].
Proof.
  cbv zeta. split; [|split; [|split]].
  - pose proof (comparator_order Host.toLowerCase Host.localeCompare
                  Samples.high_A Samples.low_B) as H.
    cbv zeta in H. destruct H as (_ & _ & _ & _ & H & _).
    apply H; reflexivity.
  - pose proof (comparator_order Host.toLowerCase Host.localeCompare
                  Samples.newer Samples.older) as H.
    cbv zeta in H. destruct H as (_ & _ & _ & _ & _ & _ & H & _).
    apply H; reflexivity.
  - pose proof (comparator_order Host.toLowerCase Host.localeCompare
                  Samples.demo Samples.mail) as H.
    cbv zeta in H. destruct H as (_ & H & _).
    apply H; reflexivity.
  - pose proof (comparator_order Host.toLowerCase Host.localeCompare
                  Samples.call Samples.call) as H.
    cbv zeta in H. destruct H as (_ & _ & _ & _ & _ & _ & _ & _ & H & _).
    apply H; reflexivity.
Defined.

Lemma includes_empty s : includes [] s = true.
Proof. destruct s; reflexivity. Qed.

(** C7 (failing input).  [Samples.composed] and [Samples.decomposed]
    have the same ROI and priority; their lower-cased titles differ as
    strings and their creation times differ, so they do not agree on the
    four keys.  A collation that honours canonical equivalence compares
    the two titles as equal, the comparator returns that [0] without
    looking at [createdAt], and the sorted view keeps whichever
    arrangement it was given. *)
Theorem sort_depends_on_arrangement
  (toLowerCase : jsstring -> jsstring)
  (localeCompare : jsstring -> jsstring -> float)
  (lower_empty : toLowerCase [] = [])
  (lower_composed : toLowerCase [233%N] = [233%N])
  (lower_decomposed : toLowerCase [101%N; 769%N] = [101%N; 769%N])
  (canonical : localeCompare [233%N] [101%N; 769%N] = 0%float
               /\ localeCompare [101%N; 769%N] [233%N] = 0%float) :
  let a := Samples.composed in
  let b := Samples.decomposed in
  let cmp := compareTasks toLowerCase localeCompare in
  let view := fun l => sortedFiltered toLowerCase localeCompare l None None []
  in
  toLowerCase (title a) <> toLowerCase (title b)
  /\ (createdAt a =? createdAt b)%float = false
  /\ cmp a b = 0%float /\ cmp b a = 0%float
  /\ view [a; b] = [a; b]
  /\ view [b; a] = [b; a]
  /\ view [a; b] <> view [b; a].
Proof.
  cbv zeta. destruct canonical as [Hab Hba].
  assert (Cab : compareTasks toLowerCase localeCompare
                  Samples.composed Samples.decomposed = 0%float).
  { unfold compareTasks. simpl.
    rewrite lower_composed, lower_decomposed. exact Hab. }
  assert (Cba : compareTasks toLowerCase localeCompare
                  Samples.decomposed Samples.composed = 0%float).
  { unfold compareTasks. simpl.
    rewrite lower_composed, lower_decomposed. exact Hba. }
  assert (Vab : sortedFiltered toLowerCase localeCompare
                  [Samples.composed; Samples.decomposed] None None []
                = [Samples.composed; Samples.decomposed]).
  { unfold sortedFiltered, matchesFilters. cbn [filter andb].
    rewrite lower_empty, !includes_empty. cbn [filter andb].
    rewrite sort_pair, Cab. reflexivity. }
  assert (Vba : sortedFiltered toLowerCase localeCompare
                  [Samples.decomposed; Samples.composed] None None []
                = [Samples.decomposed; Samples.composed]).
  { unfold sortedFiltered, matchesFilters. cbn [filter andb].
    rewrite lower_empty, !includes_empty. cbn [filter andb].
    rewrite sort_pair, Cba. reflexivity. }
  split; [|split; [|split; [|split; [|split; [|split]]]]]; trivial.
  - simpl. rewrite lower_composed, lower_decomposed. discriminate.
  - rewrite Vab, Vba. discriminate.
Qed.

Lemma sort_depends_on_arrangement_witness :
  let view := fun l =>
    sortedFiltered Host.toLowerCase Host.localeCompare l None None [] in
  view [Samples.composed; Samples.decomposed]
  <> view [Samples.decomposed; Samples.composed].
Proof.
  cbv zeta.
  apply (sort_depends_on_arrangement Host.toLowerCase Host.localeCompare);
    try reflexivity.
  split; reflexivity.
Defined.

(** ** Sorting with a comparator that is a strict total order *)

Section SortFacts.
Context {A : Type}.
Variable comparefn : A -> A -> float.
Variable dom : A -> Prop.

Hypothesis consistent : forall a b,
  (comparefn a b <? 0)%float = (0 <? comparefn b a)%float.
Hypothesis transitive : forall a b c,
  precedes comparefn a b -> precedes comparefn b c -> precedes comparefn a c.
Hypothesis total : forall a b, dom a -> dom b -> a <> b ->
  precedes comparefn a b \/ precedes comparefn b a.

Lemma precedes_irrefl a : ~ precedes comparefn a a.
Proof.
  unfold precedes. intros H. pose proof (float_ltb_asym _ _ H) as H'.
  rewrite <- consistent in H'. congruence.
Qed.

Lemma insert_perm x l : Permutation (x :: l) (insert comparefn x l).
Proof.
  induction l as [|y l IH]; simpl; [reflexivity|].
  destruct (0 <? comparefn x y)%float; [|reflexivity].
  rewrite perm_swap. constructor. exact IH.
Qed.

Lemma sort_perm l : Permutation l (sort comparefn l).
Proof.
  induction l as [|x l IH]; simpl; [reflexivity|].
  rewrite <- insert_perm. constructor. exact IH.
Qed.

Lemma insert_sorted x l :
  dom x -> Forall dom l -> ~ In x l ->
  StronglySorted (precedes comparefn) l ->
  StronglySorted (precedes comparefn) (insert comparefn x l).
Proof.
  intros Dx Dl Hn Hs. induction Hs as [|y l Hs IH Hy]; simpl.
  - constructor; constructor.
  - apply Forall_cons_iff in Dl. destruct Dl as [Dy Dl].
    destruct (0 <? comparefn x y)%float eqn:E.
    + constructor.
      * apply IH; [exact Dl | intros H; apply Hn; right; exact H].
      * rewrite <- insert_perm. constructor; [|exact Hy].
        unfold precedes. rewrite consistent. exact E.
    + assert (Pxy : precedes comparefn x y).
      { destruct (total x y Dx Dy) as [P|P]; trivial.
        - intros ->. apply Hn. left. reflexivity.
        - unfold precedes in P. rewrite consistent in P. congruence. }
      constructor; [constructor; assumption|].
      constructor; [exact Pxy|].
      eapply Forall_impl; [|exact Hy]. intros z Hz.
      exact (transitive _ _ _ Pxy Hz).
Qed.

Lemma sort_sorted l :
  NoDup l -> Forall dom l ->
  StronglySorted (precedes comparefn) (sort comparefn l).
Proof.
  induction l as [|x l IH]; simpl; intros Hnd Hd; [constructor|].
  apply NoDup_cons_iff in Hnd. destruct Hnd as [Hx Hnd].
  apply Forall_cons_iff in Hd. destruct Hd as [Dx Dl].
  apply insert_sorted.
  - exact Dx.
  - rewrite <- sort_perm. exact Dl.
  - rewrite <- sort_perm. exact Hx.
  - apply IH; assumption.
Qed.

Lemma sorted_unique l1 : forall l2,
  StronglySorted (precedes comparefn) l1 ->
  StronglySorted (precedes comparefn) l2 ->
  Permutation l1 l2 -> l1 = l2.
Proof.
  induction l1 as [|a l1 IH]; intros l2 S1 S2 P.
  - apply Permutation_nil in P. congruence.
  - destruct l2 as [|b l2].
    { apply Permutation_sym, Permutation_nil in P. discriminate. }
    apply StronglySorted_inv in S1, S2.
    destruct S1 as [S1 F1], S2 as [S2 F2].
    assert (E : a = b).
    { assert (Ia : In a (b :: l2))
        by (apply (Permutation_in _ P); left; reflexivity).
      assert (Ib : In b (a :: l1))
        by (apply (Permutation_in _ (Permutation_sym P)); left; reflexivity).
      destruct Ia as [->|Ia]; [reflexivity|].
      destruct Ib as [->|Ib]; [reflexivity|].
      rewrite Forall_forall in F1, F2.
      exfalso. apply (precedes_irrefl a).
      exact (transitive _ _ _ (F1 _ Ib) (F2 _ Ia)). }
    subst b. f_equal. apply IH; trivial.
    exact (Permutation_cons_inv P).
Qed.

Lemma sort_permutation_invariant l l' :
  NoDup l -> Forall dom l -> Permutation l l' ->
  sort comparefn l = sort comparefn l'.
Proof.
  intros Hnd Hd P. apply sorted_unique.
  - apply sort_sorted; assumption.
  - apply sort_sorted.
    + exact (Permutation_NoDup P Hnd).
    + rewrite <- P. exact Hd.
  - rewrite <- !sort_perm. exact P.
Qed.
End SortFacts.

(** ** The comparator under a separating collation *)

Lemma jsstring_eqb_sym s t : jsstring_eqb s t = jsstring_eqb t s.
Proof.
  destruct (jsstring_eqb s t) eqn:E; symmetry.
  - apply jsstring_eqb_eq in E. subst. apply jsstring_eqb_refl.
  - apply jsstring_eqb_neq. apply jsstring_eqb_neq in E. congruence.
Qed.

Lemma Priority_eqb_sym p q : Priority_eqb p q = Priority_eqb q p.
Proof. destruct p, q; reflexivity. Qed.

Section ComparatorOrder.
Variable toLowerCase : jsstring -> jsstring.
Variable localeCompare : jsstring -> jsstring -> float.
Hypothesis sep : consistent_collation localeCompare.

Local Abbreviation cmp := (compareTasks toLowerCase localeCompare).
Local Abbreviation lex := (lex_before toLowerCase localeCompare).

Lemma before_lex a b : (cmp a b <? 0)%float = lex a b.
Proof.
  unfold compareTasks, lex_before. cbv zeta. rewrite priRank_eqb.
  destruct (negb (roi_or_zero (roi a) =? roi_or_zero (roi b))%float);
    [apply sub_ltb_zero|].
  destruct (negb (Priority_eqb (priority a) (priority b)));
    [apply sub_ltb_zero|].
  destruct (negb (jsstring_eqb _ _)); [reflexivity | apply sub_ltb_zero].
Qed.

Lemma after_lex a b : (0 <? cmp a b)%float = lex b a.
Proof.
  unfold compareTasks, lex_before. cbv zeta. rewrite priRank_eqb.
  rewrite (float_eqb_sym (roi_or_zero (roi b))),
    (Priority_eqb_sym (priority b)),
    (jsstring_eqb_sym (toLowerCase (title b))).
  destruct (negb (roi_or_zero (roi a) =? roi_or_zero (roi b))%float);
    [apply sub_ltb_zero|].
  destruct (negb (Priority_eqb (priority a) (priority b)));
    [apply sub_ltb_zero|].
  destruct (negb (jsstring_eqb _ _));
    [symmetry; apply (lc_sign _ sep) | apply sub_ltb_zero].
Qed.

Lemma compareTasks_consistent a b :
  (cmp a b <? 0)%float = (0 <? cmp b a)%float.
Proof. rewrite before_lex, after_lex. reflexivity. Qed.

Lemma lex_trans a b c : lex a b = true -> lex b c = true -> lex a c = true.
Proof.
  unfold lex_before.
  set (ka := roi_or_zero (roi a)). set (kb := roi_or_zero (roi b)).
  set (kc := roi_or_zero (roi c)).
  destruct (ka =? kb)%float eqn:Eab, (kb =? kc)%float eqn:Ebc;
    cbn [negb]; intros H1 H2.
  2: assert (T : (kc <? ka)%float = true)
       by (rewrite (float_eqb_ltb_r _ _ kc Eab); exact H2).
  3: assert (T : (kc <? ka)%float = true)
       by (rewrite <- (float_eqb_ltb_l _ _ ka Ebc); exact H1).
  4: assert (T : (kc <? ka)%float = true)
       by exact (float_ltb_trans _ _ _ H2 H1).
  2-4: assert (N : (ka =? kc)%float = false)
         by (rewrite float_eqb_sym; apply float_ltb_not_eqb; exact T).
  2-4: rewrite N; exact T.
  rewrite (float_eqb_trans _ _ _ Eab Ebc). cbn [negb].
  clearbody ka kb kc. clear Eab Ebc ka kb kc.
  revert H1 H2.
  set (ta := toLowerCase (title a)). set (tb := toLowerCase (title b)).
  set (tc := toLowerCase (title c)). clearbody ta tb tc.
  destruct (priority a), (priority b), (priority c); cbn;
    try discriminate; try reflexivity.
  all: destruct (jsstring_eqb ta tb) eqn:Tab,
                (jsstring_eqb tb tc) eqn:Tbc; cbn [negb]; intros H1 H2.
  all: try (apply jsstring_eqb_eq in Tab; subst tb).
  all: try (apply jsstring_eqb_eq in Tbc; subst tc).
  all: rewrite ?jsstring_eqb_refl, ?Tab, ?Tbc; cbn [negb].
  all: try exact H1; try exact H2.
  all: try exact (float_ltb_trans _ _ _ H2 H1).
  all: destruct (jsstring_eqb ta tc) eqn:Tac; cbn [negb];
    [|exact (lc_trans _ sep _ _ _ H1 H2)].
  all: apply jsstring_eqb_eq in Tac; subst tc;
    rewrite (lc_sign _ sep) in H2;
    pose proof (float_ltb_asym _ _ H1); congruence.
Qed.

Lemma lex_total a b :
  is_nan (createdAt a) = false -> is_nan (createdAt b) = false ->
  told_apart localeCompare (toLowerCase (title a)) (toLowerCase (title b)) ->
  ~ same_keys toLowerCase a b ->
  lex a b || lex b a = true.
Proof.
  intros Na Nb Hap Hk. unfold lex_before, same_keys in *.
  rewrite (float_eqb_sym (roi_or_zero (roi b))),
    (Priority_eqb_sym (priority b)),
    (jsstring_eqb_sym (toLowerCase (title b))).
  destruct (roi_or_zero (roi a) =? roi_or_zero (roi b))%float eqn:Er;
    cbn [negb].
  2: { rewrite orb_comm.
       apply float_trichotomy; auto using roi_or_zero_not_nan. }
  destruct (Priority_eqb (priority a) (priority b)) eqn:Ep; cbn [negb].
  2: { destruct (priority a), (priority b); try discriminate; reflexivity. }
  apply Priority_eqb_eq in Ep.
  destruct (jsstring_eqb _ _) eqn:Et; cbn [negb].
  - apply jsstring_eqb_eq in Et. rewrite orb_comm.
    apply float_trichotomy; trivial.
    destruct (createdAt a =? createdAt b)%float eqn:Ec; [|reflexivity].
    exfalso. apply Hk. auto.
  - apply jsstring_eqb_neq in Et.
    rewrite (lc_sign _ sep (toLowerCase (title b))).
    apply Hap. exact Et.
Qed.
End ComparatorOrder.

Lemma filter_perm {A} (p : A -> bool) l l' :
  Permutation l l' -> Permutation (filter p l) (filter p l').
Proof.
  induction 1 as [|x l l' _ IH|x y l|l l' l'' _ IH1 _ IH2]; simpl.
  - constructor.
  - destruct (p x); [constructor|]; exact IH.
  - destruct (p x), (p y); try reflexivity. apply perm_swap.
  - exact (Permutation_trans IH1 IH2).
Qed.

(** X19. When the collation tells the different lower-cased titles of
    the list apart and the creation times are numbers, the comparator is a
    strict total order on tasks that do not agree on all four keys, and
    the sorted view does not depend on how the list is arranged. *)
Theorem sorted_view_deterministic
  (toLowerCase : jsstring -> jsstring)
  (localeCompare : jsstring -> jsstring -> float)
  (sep : consistent_collation localeCompare)
  (l l' : list Task)
  (distinct : NoDup l)
  (keys_differ : forall a b, In a l -> In b l ->
     same_keys toLowerCase a b -> a = b)
  (titles : forall a b, In a l -> In b l ->
     told_apart localeCompare (toLowerCase (title a)) (toLowerCase (title b)))
  (times : forall a, In a l -> is_nan (createdAt a) = false)
  (arranged : Permutation l l') :
  let before := precedes (compareTasks toLowerCase localeCompare) in
  (forall a, ~ before a a)
  /\ (forall a b c, before a b -> before b c -> before a c)
  /\ (forall a b, In a l -> In b l -> a <> b -> before a b \/ before b a)
  /\ (forall pf sf search,
        sortedFiltered toLowerCase localeCompare l pf sf search
        = sortedFiltered toLowerCase localeCompare l' pf sf search).
Proof.
  cbv zeta.
  assert (C := compareTasks_consistent toLowerCase localeCompare sep).
  assert (T : forall a b c,
             precedes (compareTasks toLowerCase localeCompare) a b ->
             precedes (compareTasks toLowerCase localeCompare) b c ->
             precedes (compareTasks toLowerCase localeCompare) a c).
  { unfold precedes. intros a b c. rewrite !before_lex.
    apply lex_trans. exact sep. }
  assert (O : forall a b, In a l -> In b l -> a <> b ->
             precedes (compareTasks toLowerCase localeCompare) a b
             \/ precedes (compareTasks toLowerCase localeCompare) b a).
  { unfold precedes. intros a b Ia Ib Hne.
    rewrite !before_lex. apply orb_true_iff.
    apply lex_total; auto. }
  split; [|split; [|split]]; trivial.
  - intros a. apply (precedes_irrefl _ C).
  - intros pf sf search. unfold sortedFiltered.
    apply (sort_permutation_invariant _ (fun t => In t l) C T O).
    + apply NoDup_filter. exact distinct.
    + apply Forall_forall. intros t Ht. apply filter_In in Ht. tauto.
    + apply filter_perm. exact arranged.
Qed.

(** The sample collation is a consistent comparator. *)
Lemma compare_units_values s t :
  Host.compare_units s t = (-1)%float \/ Host.compare_units s t = 0%float
  \/ Host.compare_units s t = 1%float.
Proof.
  revert t. induction s as [|a s IH]; intros [|b t]; simpl; auto.
  destruct (a <? b)%N; auto. destruct (b <? a)%N; auto.
Qed.

Lemma compare_units_sign s t :
  (Host.compare_units s t <? 0)%float = (0 <? Host.compare_units t s)%float.
Proof.
  revert t. induction s as [|a s IH]; intros [|b t]; simpl;
    try reflexivity.
  destruct (N.ltb_spec a b), (N.ltb_spec b a); try reflexivity; try lia.
  apply IH.
Qed.

Lemma compare_units_trans s : forall t u,
  (Host.compare_units s t <? 0)%float = true ->
  (Host.compare_units t u <? 0)%float = true ->
  (Host.compare_units s u <? 0)%float = true.
Proof.
  induction s as [|a s IH]; intros [|b t] [|c u]; simpl;
    try discriminate; try reflexivity.
  destruct (N.ltb_spec a b), (N.ltb_spec b a), (N.ltb_spec b c),
    (N.ltb_spec c b), (N.ltb_spec a c), (N.ltb_spec c a);
    try discriminate; try reflexivity; try lia.
  apply IH.
Qed.

Lemma Host_localeCompare_consistent : consistent_collation Host.localeCompare.
Proof.
  split; unfold Host.localeCompare; intros.
  - apply compare_units_sign.
  - eapply compare_units_trans; eassumption.
Qed.

Lemma sorted_view_deterministic_witness :
  let view := fun l =>
    sortedFiltered Host.toLowerCase Host.localeCompare l None None [] in
  view [Samples.call; Samples.demo; Samples.older; Samples.newer]
  = view [Samples.newer; Samples.demo; Samples.call; Samples.older].
Proof.
  cbv zeta.
  apply (sorted_view_deterministic Host.toLowerCase Host.localeCompare
           Host_localeCompare_consistent
           [Samples.call; Samples.demo; Samples.older; Samples.newer]).
  - repeat constructor; simpl; intros H;
      repeat (destruct H as [H|H]; [discriminate H|]); exact H.
  - intros a b Ia Ib (_ & _ & _ & Hc). simpl in Ia, Ib.
    repeat (destruct Ia as [<-|Ia]; [|]); try contradiction;
      repeat (destruct Ib as [<-|Ib]; [|]); try contradiction;
      try reflexivity; discriminate Hc.
  - intros a b Ia Ib. simpl in Ia, Ib.
    repeat (destruct Ia as [<-|Ia]; [|]); try contradiction;
      repeat (destruct Ib as [<-|Ib]; [|]); try contradiction;
      intros Hne; try reflexivity; exfalso; apply Hne; reflexivity.
  - intros a Ia. simpl in Ia.
    repeat (destruct Ia as [<-|Ia]; [|]); try contradiction; reflexivity.
  - apply Permutation_sym.
    apply (perm_trans (l' := [Samples.demo; Samples.newer; Samples.call;
                              Samples.older])); [apply perm_swap|].
    apply (perm_trans (l' := [Samples.demo; Samples.call; Samples.newer;
                              Samples.older]));
      [apply perm_skip, perm_swap|].
    apply (perm_trans (l' := [Samples.call; Samples.demo; Samples.newer;
                              Samples.older])); [apply perm_swap|].
    apply perm_skip, perm_skip, perm_swap.
Defined.


(** ** Coverage: the handlers of the task list *)

Lemma filter_keeps_others i l (x : Task) :
  In x (filter (fun y => negb (jsstring_eqb (id y) i)) l)
  <-> In x l /\ id x <> i.
Proof.
  rewrite filter_In, negb_true_iff, jsstring_eqb_neq. reflexivity.
Qed.

Lemma find_none_unknown i l :
  ~ In i (map id l) -> find (fun x => jsstring_eqb (id x) i) l = None.
Proof.
  induction l as [|x l IH]; simpl; intros Hn; [reflexivity|].
  destruct (jsstring_eqb (id x) i) eqn:E.
  - apply jsstring_eqb_eq in E. tauto.
  - apply IH. tauto.
Qed.

Lemma find_some_known i l :
  In i (map id l) ->
  exists t, find (fun x => jsstring_eqb (id x) i) l = Some t
            /\ id t = i /\ In t l.
Proof.
  induction l as [|x l IH]; simpl; intros Hin; [contradiction|].
  destruct (jsstring_eqb (id x) i) eqn:E.
  - apply jsstring_eqb_eq in E. exists x. auto.
  - destruct Hin as [Hx|Hin].
    + apply jsstring_eqb_neq in E. contradiction.
    + destruct (IH Hin) as (t & Hf & Hi & Ht). exists t. auto.
Qed.

(** What [deleteTask] does to the state, in the two cases of its [find]. *)
Lemma deleteTask_run i st :
  run (deleteTask i) st
  = match find (fun x => jsstring_eqb (id x) i) (tasks st) with
    | Some t =>
        {| tasks := filter (fun x => negb (jsstring_eqb (id x) i)) (tasks st);
           lastDeleted := Some t; snackbarOpen := true |}
    | None =>
        {| tasks := filter (fun x => negb (jsstring_eqb (id x) i)) (tasks st);
           lastDeleted := lastDeleted st; snackbarOpen := snackbarOpen st |}
    end.
Proof.
  unfold run, deleteTask, setTasks, seq.
  destruct (find _ (tasks st)); reflexivity.
Qed.

Lemma run_seq (a b : State unit) st :
  run (a ;;; b) st = run b (run a st).
Proof. unfold run, seq. destruct (a st) as [u st1]. reflexivity. Qed.

Lemma undoDelete_run st :
  run undoDelete st
  = match lastDeleted st with
    | Some t => {| tasks := t :: tasks st; lastDeleted := None;
                   snackbarOpen := false |}
    | None => st
    end.
Proof.
  unfold run, undoDelete, seq, getLastDeleted.
  destruct (lastDeleted st); reflexivity.
Qed.

(** What [find] returns is the first element that passes the test. *)
Lemma find_first {A} (p : A -> bool) (l : list A) (t : A) :
  find p l = Some t ->
  exists before after,
    l = before ++ t :: after
    /\ p t = true
    /\ forall x, In x before -> p x = false.
Proof.
  induction l as [|x l IH]; simpl; [discriminate|].
  destruct (p x) eqn:E.
  - intros H. injection H as <-. exists [], l.
    split; [reflexivity|]. split; [exact E|]. intros y [].
  - intros H. destruct (IH H) as (before & after & -> & Ht & Hb).
    exists (x :: before), after.
    split; [reflexivity|]. split; [exact Ht|].
    intros y [<-|Hy]; [exact E | apply Hb, Hy].
Qed.

(** X1. [deleteTask i] removes every task whose id is [i] and no other
    task.  When no task has that id the whole state is left as it was,
    the undo slot and the snackbar included; otherwise the first task of
    the list with that id, the one with no such task before it, is kept
    for undo and the snackbar opens. *)
Theorem deleteTask_effect (st : TasksState) (i : jsstring) :
  let st' := run (deleteTask i) st in
  (forall x, In x (tasks st') <-> In x (tasks st) /\ id x <> i)
  /\ tasks st' = filter (fun x => negb (jsstring_eqb (id x) i)) (tasks st)
  /\ (~ In i (ids st) -> st' = st)
  /\ (In i (ids st) ->
      exists t before after,
        lastDeleted st' = Some t
        /\ tasks st = before ++ t :: after
        /\ id t = i
        /\ ~ In i (map id before)
        /\ tasks st'
           = before ++ filter (fun x => negb (jsstring_eqb (id x) i)) after
        /\ snackbarOpen st' = true
        /\ (List.length (tasks st') < List.length (tasks st))%nat).
Proof.
  cbv zeta. rewrite deleteTask_run. unfold ids.
  split; [|split; [|split]].
  - intros x. destruct (find _ (tasks st)); simpl;
      apply filter_keeps_others.
  - destruct (find _ (tasks st)); reflexivity.
  - intros Hn. rewrite (find_none_unknown _ _ Hn).
    rewrite (filter_other_ids _ _ Hn). destruct st; reflexivity.
  - intros Hin. destruct (find_some_known _ _ Hin) as (t & Hf & Hi & Ht).
    rewrite Hf.
    destruct (find_first _ _ _ Hf) as (before & after & E & Hp & Hb).
    assert (Nb : ~ In i (map id before)).
    { intros Hx. apply in_map_iff in Hx. destruct Hx as (x & Hx & Hin').
      specialize (Hb x Hin'). simpl in Hb. rewrite Hx in Hb.
      rewrite jsstring_eqb_refl in Hb. discriminate. }
    assert (F : filter (fun x => negb (jsstring_eqb (id x) i)) (tasks st)
                = before
                  ++ filter (fun x => negb (jsstring_eqb (id x) i)) after).
    { rewrite E, filter_app. simpl. rewrite Hp. simpl.
      rewrite (filter_other_ids _ _ Nb). reflexivity. }
    exists t, before, after. simpl.
    split; [reflexivity|]. split; [exact E|]. split; [exact Hi|].
    split; [exact Nb|]. split; [exact F|]. split; [reflexivity|].
    rewrite F, E, !length_app. simpl.
    pose proof (filter_length_le
                  (fun x => negb (jsstring_eqb (id x) i)) after).
    lia.
Qed.

Lemma deleteTask_effect_witness :
  let st := {| tasks := [Samples.call; Samples.demo];
               lastDeleted := Some Samples.mail; snackbarOpen := false |} in
  run (deleteTask (lit "3-c")) st = st
  /\ exists t, lastDeleted (run (deleteTask (lit "1-a")) st) = Some t
               /\ id t = lit "1-a".
Proof.
  cbv zeta. split.
  - apply (proj1 (proj2 (proj2 (deleteTask_effect
             {| tasks := [Samples.call; Samples.demo];
                lastDeleted := Some Samples.mail; snackbarOpen := false |}
             (lit "3-c"))))).
    simpl. intros [H|[H|H]]; [discriminate H | discriminate H | exact H].
  - destruct (proj2 (proj2 (proj2 (deleteTask_effect
             {| tasks := [Samples.call; Samples.demo];
                lastDeleted := Some Samples.mail; snackbarOpen := false |}
             (lit "1-a")))) (or_introl eq_refl))
      as (t & before & after & Hl & _ & Hi & _).
    exists t. split; assumption.
Defined.

(** X2. Once the snackbar has closed there is nothing to restore:
    [undoDelete] after [onSnackbarClose] leaves the task list as it is,
    so a deleted task stays deleted; and a second [undoDelete] right
    after a first one does nothing. *)
Theorem no_phantom_restore (st : TasksState) (i : jsstring) :
  tasks (run (onSnackbarClose ;;; undoDelete) st) = tasks st
  /\ run (onSnackbarClose ;;; undoDelete) st = run onSnackbarClose st
  /\ run (deleteTask i ;;; onSnackbarClose ;;; undoDelete) st
     = run (deleteTask i ;;; onSnackbarClose) st
  /\ (forall x,
        In x (tasks (run (deleteTask i ;;; onSnackbarClose ;;; undoDelete) st))
        -> id x <> i)
  /\ run (undoDelete ;;; undoDelete) st = run undoDelete st.
Proof.
  assert (S1 : forall s, run (onSnackbarClose ;;; undoDelete) s
                         = run onSnackbarClose s) by reflexivity.
  assert (S2 : run (deleteTask i ;;; onSnackbarClose ;;; undoDelete) st
               = run (deleteTask i ;;; onSnackbarClose) st).
  { rewrite !run_seq. apply S1. }
  split; [reflexivity|]. split; [apply S1|]. split; [exact S2|]. split.
  - intros x. rewrite S2, run_seq.
    change (tasks (run onSnackbarClose (run (deleteTask i) st)))
      with (tasks (run (deleteTask i) st)).
    rewrite deleteTask_run. intros H.
    assert (In x (filter (fun y => negb (jsstring_eqb (id y) i)) (tasks st)))
      by (destruct (find _ (tasks st)); exact H).
    apply filter_keeps_others in H0. tauto.
  - rewrite run_seq, (undoDelete_run st).
    destruct (lastDeleted st) eqn:E.
    + rewrite undoDelete_run. reflexivity.
    + rewrite undoDelete_run, E. reflexivity.
Qed.

Lemma ids_filter_incl (p : Task -> bool) l x :
  In x (map id (filter p l)) -> In x (map id l).
Proof.
  rewrite !in_map_iff. intros (t & Hi & Ht).
  apply filter_In in Ht. exists t. tauto.
Qed.

Lemma NoDup_ids_filter (p : Task -> bool) l :
  NoDup (map id l) -> NoDup (map id (filter p l)).
Proof.
  induction l as [|x l IH]; simpl; intros H; [constructor|].
  apply NoDup_cons_iff in H. destruct H as [Hx Hl].
  destruct (p x); simpl; [|auto].
  constructor; [|auto]. intros Hin. apply Hx.
  exact (ids_filter_incl _ _ _ Hin).
Qed.

Lemma ids_after_edit shown n l :
  map id (map (fun t => if jsstring_eqb (id t) (id shown)
                        then editPatch shown n t else t) l)
  = map id l.
Proof.
  induction l as [|x l IH]; simpl; [reflexivity|].
  rewrite IH. destruct (jsstring_eqb (id x) (id shown)) eqn:E;
    [|reflexivity].
  apply jsstring_eqb_eq in E. simpl. rewrite E. reflexivity.
Qed.

Lemma distinct_ids_step numberToString a st :
  distinct_ids st -> fresh numberToString a st ->
  distinct_ids (run (perform numberToString a) st).
Proof.
  unfold distinct_ids, ids. intros [Hnd Hld] Hf.
  destruct a as [i| | |shown n|now suffix n]; simpl perform.
  - rewrite deleteTask_run.
    destruct (find _ (tasks st)) as [t|] eqn:E; simpl; split.
    + apply NoDup_ids_filter. exact Hnd.
    + intros t' Ht'. injection Ht' as <-.
      apply find_some in E. destruct E as [_ E].
      apply jsstring_eqb_eq in E. rewrite in_map_iff.
      intros (x & Hx & Hin). apply filter_keeps_others in Hin.
      destruct Hin as [_ Hin]. congruence.
    + apply NoDup_ids_filter. exact Hnd.
    + intros t Ht Hin. apply (Hld t Ht).
      exact (ids_filter_incl _ _ _ Hin).
  - rewrite undoDelete_run. destruct (lastDeleted st) as [t|] eqn:E.
    + simpl. split; [|discriminate].
      constructor; [apply Hld; reflexivity | exact Hnd].
    + split; [exact Hnd|]. rewrite E. discriminate.
  - simpl. split; [exact Hnd | discriminate].
  - unfold run, updateTask, setTasks, pure. simpl.
    rewrite ids_after_edit. split; assumption.
  - simpl in Hf. destruct Hf as [Hnew Hundo].
    unfold run, addTask, setTasks, pure. simpl. split.
    + constructor; assumption.
    + intros t Ht [Heq|Hin]; [exact (Hundo t Ht (eq_sym Heq))|].
      exact (Hld t Ht Hin).
Qed.

(** X3. Ids stay unique.  If no two tasks share an id and the task kept
    for undo is not in the list, this is still so after any sequence of
    deleting, undoing, closing the snackbar, editing and adding, as long
    as each added task draws an id that is not in use. *)
Theorem ids_stay_distinct (numberToString : float -> jsstring)
  (acts : list Action) (st : TasksState)
  (start : distinct_ids st)
  (new_ids : fresh_along numberToString acts st) :
  distinct_ids (perform_all numberToString acts st).
Proof.
  revert st start new_ids.
  induction acts as [|a acts IH]; intros st start new_ids; simpl;
    [exact start|].
  destruct new_ids as [Ha Hrest].
  apply IH; [|exact Hrest].
  apply distinct_ids_step; assumption.
Qed.

Lemma ids_stay_distinct_witness :
  let st := {| tasks := [Samples.call; Samples.demo; Samples.mail];
               lastDeleted := None; snackbarOpen := false |} in
  NoDup (ids (perform_all Host.numberToString
                [ActDelete (lit "2-b"); ActUndo; ActUndo;
                 ActAdd 1700000000000 (lit "k3x9ab") Samples.draft;
                 ActEdit Samples.call Samples.draft;
                 ActDelete (lit "1-a"); ActCloseSnackbar; ActUndo] st)).
Proof.
  cbv zeta.
  apply (ids_stay_distinct Host.numberToString
           [ActDelete (lit "2-b"); ActUndo; ActUndo;
            ActAdd 1700000000000 (lit "k3x9ab") Samples.draft;
            ActEdit Samples.call Samples.draft;
            ActDelete (lit "1-a"); ActCloseSnackbar; ActUndo]).
  - split; [|discriminate].
    repeat constructor; simpl; intros H;
      repeat (destruct H as [H|H]; [discriminate H|]); exact H.
  - cbn [fresh_along fresh perform].
    repeat (split; [exact I|]).
    split; [|repeat (split; [exact I|]); exact I].
    split.
    + vm_compute. intros H.
      repeat (destruct H as [H|H]; [discriminate H|]). exact H.
    + vm_compute. intros t H. discriminate H.
Defined.

(** ** Coverage: what the form stores *)

Lemma trimStart_suffix s : exists w, s = w ++ trimStart s.
Proof.
  induction s as [|c s [w IH]]; [exists []; reflexivity|].
  simpl. destruct (is_white c).
  - exists (c :: w). simpl. f_equal. exact IH.
  - exists []. reflexivity.
Qed.

Lemma trimStart_first s c r : trimStart s = c :: r -> is_white c = false.
Proof.
  induction s as [|x s IH]; simpl; [discriminate|].
  destruct (is_white x) eqn:E; [exact IH|].
  intros H. injection H as <- _. exact E.
Qed.

(** A trimmed string has no white space at either end. *)
Lemma trim_edges s : edge_white (trim s) = false.
Proof.
  unfold trim, trimEnd.
  set (u := trimStart s).
  destruct (trimStart_suffix (rev u)) as [w Hw].
  destruct (trimStart (rev u)) as [|c v] eqn:E; [reflexivity|].
  pose proof (trimStart_first _ _ _ E) as Hc.
  assert (Hu : u = rev (c :: v) ++ rev w).
  { rewrite <- rev_app_distr, <- Hw, rev_involutive. reflexivity. }
  simpl rev in *.
  destruct (rev v ++ [c]) as [|h t] eqn:F.
  { destruct (rev v); discriminate F. }
  unfold edge_white. rewrite <- F, last_last, Hc, orb_false_r.
  simpl in Hu. exact (trimStart_first s h _ Hu).
Qed.

Lemma trim_idempotent s : trim (trim s) = trim s.
Proof. apply trim_no_edge_white, trim_edges. Qed.

Lemma safeNumber_idempotent v :
  safeNumber (VNumber (safeNumber v)) = safeNumber v.
Proof.
  change (safeNumber (VNumber (safeNumber v)))
    with (if isFinite (safeNumber v) then safeNumber v else 0%float).
  rewrite safeNumber_finite. reflexivity.
Qed.

Lemma submitted_sound data :
  let n := submitted data in
  isFinite (new_revenue n) = true
  /\ isFinite (new_time n) = true
  /\ new_roi n = calculateRoi (new_revenue n) (new_time n)
  /\ is_nan (new_roi n) = false
  /\ new_title n <> []
  /\ edge_white (new_title n) = false.
Proof.
  cbv zeta. unfold submitted. simpl.
  repeat split; try apply safeNumber_finite; try apply calculateRoi_never_nan.
  - unfold submitted_title.
    destruct (match data_title data with Some t => trim t | None => [] end);
      discriminate.
  - unfold submitted_title. destruct (data_title data) as [t|];
      [|reflexivity].
    pose proof (trim_edges t) as H.
    destruct (trim t); [reflexivity | exact H].
Qed.

(** X4. Submitting the form while a task is being edited closes the
    dialog and rewrites, in place, the tasks that carry the edited id:
    the list keeps its length and its ids in the same order, tasks with
    another id are untouched, and every rewritten task keeps the id and
    creation time of the edited one, holds finite revenue and time, the
    ROI computed from them, and a title that is neither empty nor padded.
    The undo slot and the snackbar are not touched. *)
Theorem submit_edit (numberToString : float -> jsstring)
  (now : float) (suffix : jsstring) (data : FormData) (st : AppState)
  (shown : Task) (editing : dialog st = DialogEdit (Some shown)) :
  let st' := onSubmitTask numberToString now suffix data st in
  dialog st' = DialogNone
  /\ map id (tasks (hook st')) = map id (tasks (hook st))
  /\ List.length (tasks (hook st')) = List.length (tasks (hook st))
  /\ (forall k t, nth_error (tasks (hook st)) k = Some t ->
        id t <> id shown -> nth_error (tasks (hook st')) k = Some t)
  /\ (forall k t t', nth_error (tasks (hook st)) k = Some t ->
        id t = id shown -> nth_error (tasks (hook st')) k = Some t' ->
        id t' = id shown /\ createdAt t' = createdAt shown
        /\ isFinite (revenue t') = true /\ isFinite (time t') = true
        /\ roi t' = calculateRoi (revenue t') (time t')
        /\ title t' <> [] /\ edge_white (title t') = false)
  /\ lastDeleted (hook st') = lastDeleted (hook st)
  /\ snackbarOpen (hook st') = snackbarOpen (hook st).
Proof.
  cbv zeta. unfold onSubmitTask. rewrite editing.
  unfold closeDialog, run, updateTask, setTasks, pure. simpl.
  destruct (submitted_sound data) as (Hr & Ht & Hroi & _ & Hne & Hed).
  cbv zeta in *.
  split; [reflexivity|]. split; [apply ids_after_edit|].
  split; [apply length_map|].
  split; [|split; [|split; reflexivity]].
  - intros k t Hk Hid. rewrite nth_error_map, Hk. simpl.
    apply jsstring_eqb_neq in Hid. rewrite Hid. reflexivity.
  - intros k t t' Hk Hid. rewrite nth_error_map, Hk. simpl.
    rewrite Hid, jsstring_eqb_refl. intros H. injection H as <-.
    simpl. repeat split; assumption.
Qed.

Lemma submit_edit_witness :
  let st := {| hook := {| tasks := [Samples.call; Samples.demo];
                          lastDeleted := None; snackbarOpen := false |};
               dialog := DialogEdit (Some Samples.demo) |} in
  let st' := onSubmitTask Host.numberToString 1700000000000
               (lit "k3x9ab") (formSubmit Samples.form) st in
  map id (tasks (hook st')) = [lit "1-a"; lit "2-b"]
  /\ nth_error (tasks (hook st')) 0 = Some Samples.call.
Proof.
  cbv zeta.
  pose proof (submit_edit Host.numberToString 1700000000000 (lit "k3x9ab")
                (formSubmit Samples.form)
                {| hook := {| tasks := [Samples.call; Samples.demo];
                              lastDeleted := None; snackbarOpen := false |};
                   dialog := DialogEdit (Some Samples.demo) |}
                Samples.demo eq_refl) as H.
  cbv zeta in H. destruct H as (_ & Hids & _ & Hkeep & _).
  split.
  - rewrite Hids. reflexivity.
  - apply Hkeep; [reflexivity | discriminate].
Defined.

(** X5. Submitting the form in any other situation closes the dialog
    and puts one new task at the head of the list, the others following
    unchanged; the new task has the id built from the time stamp and the
    random suffix, that time stamp as creation time, finite revenue and
    time, the ROI computed from them, and a title that is neither empty
    nor padded. *)
Theorem submit_add (numberToString : float -> jsstring)
  (now : float) (suffix : jsstring) (data : FormData) (st : AppState)
  (adding : forall shown, dialog st <> DialogEdit (Some shown)) :
  let st' := onSubmitTask numberToString now suffix data st in
  dialog st' = DialogNone
  /\ exists t, tasks (hook st') = t :: tasks (hook st)
     /\ id t = numberToString now ++ lit "-" ++ suffix
     /\ createdAt t = now
     /\ isFinite (revenue t) = true /\ isFinite (time t) = true
     /\ roi t = calculateRoi (revenue t) (time t)
     /\ title t <> [] /\ edge_white (title t) = false.
Proof.
  cbv zeta. unfold onSubmitTask.
  destruct (submitted_sound data) as (Hr & Ht & Hroi & _ & Hne & Hed).
  cbv zeta in *.
  assert (E : forall h d, closeDialog
                {| hook := run (addTask numberToString now suffix
                                  (submitted data)) h;
                   dialog := d |}
              = {| hook := run (addTask numberToString now suffix
                                  (submitted data)) h;
                   dialog := DialogNone |}) by reflexivity.
  destruct (dialog st) as [|v|[shown|]|d] eqn:D;
    try (exfalso; apply (adding shown); reflexivity);
    rewrite E; (split; [reflexivity|]);
    eexists; (split; [reflexivity|]); simpl; repeat split; assumption.
Qed.

Lemma submit_add_witness :
  let st := {| hook := {| tasks := [Samples.call];
                          lastDeleted := None; snackbarOpen := false |};
               dialog := DialogEdit None |} in
  let st' := onSubmitTask Host.numberToString 1700000000000
               (lit "k3x9ab") (formSubmit Samples.form) st in
  dialog st' = DialogNone
  /\ map id (tasks (hook st')) = [lit "1700000000000-k3x9ab"; lit "1-a"].
Proof.
  cbv zeta.
  destruct (submit_add Host.numberToString 1700000000000 (lit "k3x9ab")
              (formSubmit Samples.form)
              {| hook := {| tasks := [Samples.call];
                            lastDeleted := None; snackbarOpen := false |};
                 dialog := DialogEdit None |})
    as (Hd & t & Ht & Hid & _).
  - intros shown. discriminate.
  - split; [exact Hd|]. rewrite Ht. simpl map. rewrite Hid. reflexivity.
Defined.

(** ** Coverage: the sign of the ROI and the readouts *)

Lemma binary_round_aux_sign s m e l :
  0 <= m ->
  binary_round_aux prec emax s m e l = S754_zero s
  \/ (exists p e', binary_round_aux prec emax s m e l = S754_finite s p e')
  \/ binary_round_aux prec emax s m e l = S754_infinity s.
Proof.
  intros Hm. unfold binary_round_aux.
  pose proof (shr_fexp_nonneg m e l Hm) as H1.
  destruct (shr_fexp prec emax m e l) as [mrs' e']. simpl in H1.
  assert (Hr : 0 <= round_nearest_even (shr_m mrs') (loc_of_shr_record mrs')).
  { destruct (loc_of_shr_record mrs') as [|[| |]]; simpl; try lia.
    destruct (Z.even (shr_m mrs')); lia. }
  pose proof (shr_fexp_nonneg _ e' loc_Exact Hr) as H2.
  destruct (shr_fexp prec emax _ e' loc_Exact) as [mrs'' e'']. simpl in H2.
  destruct (shr_m mrs'') as [|q|q]; try lia; auto.
  destruct (e'' <=? emax - prec); eauto.
Qed.

(** A finite number over a positive finite one has the sign of the
    dividend. *)
Lemma div_sign r t :
  isFinite r = true -> isFinite t = true -> (t <=? 0)%float = false ->
  ((0 <=? r)%float = true -> (0 <=? r / t)%float = true)
  /\ ((r <=? 0)%float = true -> (r / t <=? 0)%float = true).
Proof.
  rewrite !isFinite_spec, !leb_spec, div_spec, Prim2SF_zero.
  unfold SF64div, SFleb.
  destruct (Prim2SF r) as [sr|sr| |sr mr er],
           (Prim2SF t) as [st|st| |st mt et];
    simpl; try discriminate; intros _ _ Ht.
  - destruct st; [discriminate Ht|]. split; reflexivity.
  - destruct st; [discriminate Ht|].
    pose proof (SFdiv_core_nonneg mr er mt et) as Hq.
    destruct (SFdiv_core_binary prec emax (Zpos mr) er (Zpos mt) et)
      as [[q e'] l]. simpl in Hq.
    rewrite xorb_false_r.
    destruct (binary_round_aux_sign sr q e' l Hq) as [E|[(p & e2 & E)|E]];
      rewrite E; destruct sr; simpl; split; congruence.
Qed.

Lemma calculateRoi_signs (revenue time : float) :
  ((0 <=? revenue)%float = true ->
   (0 <=? calculateRoi revenue time)%float = true)
  /\ ((revenue <=? 0)%float = true ->
      (calculateRoi revenue time <=? 0)%float = true).
Proof.
  unfold calculateRoi. cbv zeta.
  pose proof (safeNumber_number_finite revenue) as Hr.
  pose proof (safeNumber_number_finite time) as Ht.
  rewrite Hr, Ht. cbn [negb orb].
  assert (Hpos : (0 <=? revenue)%float = true ->
                 (0 <=? safeNumber (VNumber revenue))%float = true).
  { simpl. destruct (isFinite revenue); [trivial | reflexivity]. }
  assert (Hneg : (revenue <=? 0)%float = true ->
                 (safeNumber (VNumber revenue) <=? 0)%float = true).
  { simpl. destruct (isFinite revenue); [trivial | reflexivity]. }
  destruct (safeNumber (VNumber time) <=? 0)%float eqn:E;
    [split; reflexivity|].
  destruct (div_sign _ _ Hr Ht E) as [D1 D2].
  split; intros H; [apply D1, Hpos, H | apply D2, Hneg, H].
Qed.

(** X6. The ROI has the sign of the revenue and is never [NaN]: it is
    at least [0] when the revenue is, and at most [0] when the revenue
    is. *)
Theorem calculateRoi_sign (revenue time : float) :
  is_nan (calculateRoi revenue time) = false
  /\ ((0 <=? revenue)%float = true ->
      (0 <=? calculateRoi revenue time)%float = true)
  /\ ((revenue <=? 0)%float = true ->
      (calculateRoi revenue time <=? 0)%float = true).
Proof.
  split; [apply calculateRoi_never_nan | apply calculateRoi_signs].
Qed.

Lemma calculateRoi_sign_witness :
  (0 <=? calculateRoi 100 4)%float = true
  /\ (calculateRoi (-50) 2 <=? 0)%float = true.
Proof.
  split.
  - apply (calculateRoi_sign 100 4). reflexivity.
  - apply (calculateRoi_sign (-50) 2). reflexivity.
Defined.

(** Negative zero over a positive finite number is negative zero. *)
Lemma negzero_div_pos t :
  isFinite t = true -> (t <=? 0)%float = false ->
  ((-0) / t)%float = (-0)%float.
Proof.
  rewrite isFinite_spec, leb_spec, Prim2SF_zero. intros Hf Hle.
  apply Prim2SF_inj. rewrite div_spec.
  change (Prim2SF (-0)) with (S754_zero true).
  unfold SF64div. revert Hf Hle. unfold SFleb.
  destruct (Prim2SF t) as [s|s| |s m e]; simpl; try discriminate;
    destruct s; simpl; try discriminate; reflexivity.
Qed.

(** X7. The ROI cell of a table row is the dash unless the time is
    above [0] and the revenue at least [0]; then it is the two-decimal
    format of a number that is finite and at least [0]: the task's ROI
    when that is finite, and [0] when the ROI overflowed.  At least [0]
    admits negative zero: for a revenue of [-0] over a finite time above
    [0] the cell formats [-0]. *)
Theorem roiCell_value
  (toLocaleString : float -> nat -> nat -> completion jsstring) (t : Task) :
  let r := calculateRoi (revenue t) (time t) in
  let guard := (0 <? time t)%float && (0 <=? revenue t)%float in
  (guard = false -> roiCell toLocaleString t = Normal grade_dash)
  /\ (guard = true ->
      exists v,
        roiCell toLocaleString t = toLocaleString v 2%nat 2%nat
        /\ isFinite v = true
        /\ (0 <=? v)%float = true
        /\ (isFinite r = true -> v = r)
        /\ (isFinite r = false -> v = 0%float))
  /\ (revenue t = (-0)%float -> (0 <? time t)%float = true ->
      isFinite (time t) = true ->
      roiCell toLocaleString t = toLocaleString (-0)%float 2%nat 2%nat)
  /\ isFinite (calculateRoi (revenue Samples.huge) (time Samples.huge))
     = false
  /\ roiCell toLocaleString Samples.huge = toLocaleString 0%float 2%nat 2%nat.
Proof.
  cbv zeta. unfold roiCell. split; [|split; [|split; [|split]]].
  - intros ->. reflexivity.
  - intros G. rewrite G.
    apply andb_true_iff in G. destruct G as [_ Grev].
    unfold formatNumber.
    pose proof (proj1 (calculateRoi_signs (revenue t) (time t)) Grev) as Hs.
    destruct (isFinite (calculateRoi (revenue t) (time t))) eqn:F.
    + eexists. split; [reflexivity|]. split; [exact F|].
      split; [exact Hs|]. split; [reflexivity | discriminate].
    + exists 0%float. split; [reflexivity|]. split; [reflexivity|].
      split; [reflexivity|]. split; [discriminate | reflexivity].
  - intros Hrev Hpos Hfin. rewrite Hrev, Hpos.
    change ((0 <=? -0)%float) with true. cbn [andb].
    unfold formatNumber, calculateRoi. cbv zeta.
    assert (St : safeNumber (VNumber (time t)) = time t)
      by (simpl; rewrite Hfin; reflexivity).
    rewrite St, Hfin, (pos_not_le_zero _ Hpos).
    change (safeNumber (VNumber (-0))) with (-0)%float.
    change (isFinite (-0)) with true. cbn [negb orb].
    rewrite (negzero_div_pos _ Hfin (pos_not_le_zero _ Hpos)).
    reflexivity.
  - reflexivity.
  - reflexivity.
Qed.

Lemma roiCell_value_witness :
  roiCell Host.toLocaleString Samples.mail = Normal grade_dash
  /\ roiCell Host.toLocaleString Samples.zero_revenue
     = Normal (lit "-0.00")
  /\ roiCell Host.toLocaleString Samples.call = Normal (lit "25.00").
Proof.
  split; [|split].
  - apply (proj1 (roiCell_value Host.toLocaleString Samples.mail)).
    reflexivity.
  - rewrite (proj1 (proj2 (proj2
               (roiCell_value Host.toLocaleString Samples.zero_revenue)))
               eq_refl eq_refl eq_refl).
    reflexivity.
  - destruct (proj1 (proj2 (roiCell_value Host.toLocaleString Samples.call))
                eq_refl) as (v & -> & _ & _ & Hv & _).
    rewrite (Hv eq_refl). reflexivity.
Defined.

(** X8. What the form previews is what the table shows: for a task
    holding the revenue and time that [onSubmitTask] computes from the
    form's inputs, the ROI cell of its row equals the live ROI readout
    of the form, and the ROI stored with it is the one the form
    computed. *)
Theorem table_shows_form_preview
  (toLocaleString : float -> nat -> nat -> completion jsstring)
  (f : FormState) (t : Task)
  (stored_revenue : revenue t = new_revenue (submitted (formSubmit f)))
  (stored_time : time t = new_time (submitted (formSubmit f))) :
  roiCell toLocaleString t = roiLive toLocaleString f
  /\ revenue t = safeNumber (VString (form_revenue f))
  /\ time t = safeNumber (VString (form_time f))
  /\ Some (new_roi (submitted (formSubmit f))) = data_roi (formSubmit f).
Proof.
  assert (Er : revenue t = safeNumber (VString (form_revenue f))).
  { rewrite stored_revenue. apply safeNumber_idempotent. }
  assert (Et : time t = safeNumber (VString (form_time f))).
  { rewrite stored_time. apply safeNumber_idempotent. }
  split; [|split; [exact Er | split; [exact Et|]]].
  - unfold roiCell, roiLive. rewrite Er, Et. reflexivity.
  - unfold submitted, formSubmit.
    cbn [new_roi data_roi data_revenue data_time].
    rewrite !safeNumber_idempotent. reflexivity.
Qed.

Lemma table_shows_form_preview_witness :
  let t := {| id := lit "1700000000000-k3x9ab"; createdAt := 1700000000000;
              title := new_title Samples.draft;
              revenue := new_revenue Samples.draft;
              time := new_time Samples.draft;
              roi := new_roi Samples.draft; notes := new_notes Samples.draft;
              priority := High; status := Todo |} in
  roiCell Host.toLocaleString t = Normal (lit "100.00")
  /\ roiLive Host.toLocaleString Samples.form = Normal (lit "100.00").
Proof.
  cbv zeta.
  pose proof (table_shows_form_preview Host.toLocaleString Samples.form
    {| id := lit "1700000000000-k3x9ab"; createdAt := 1700000000000;
       title := new_title Samples.draft;
       revenue := new_revenue Samples.draft;
       time := new_time Samples.draft;
       roi := new_roi Samples.draft; notes := new_notes Samples.draft;
       priority := High; status := Todo |} eq_refl eq_refl) as (H & _).
  rewrite H. split; reflexivity.
Defined.

(** ** Coverage: reading CSV *)

Lemma loop_without_quotes line : forall res cur,
  includes_unit dquote line = false ->
  splitCsvLine_loop line res cur false = res ++ splitComma_loop line cur.
Proof.
  induction line as [|c line IH]; intros res cur Hq; simpl; [reflexivity|].
  rewrite includes_unit_cons in Hq. apply orb_false_iff in Hq.
  destruct Hq as [Hc Hq]. rewrite unit_eqb_sym in Hc. rewrite Hc.
  destruct (unit_eqb c comma).
  - rewrite IH by exact Hq. rewrite <- app_assoc. reflexivity.
  - apply IH. exact Hq.
Qed.

(** X9. On a line without double quotes [splitCsvLine] is
    [line.split(',')] with every piece trimmed, so the rows are cut the
    way the header is. *)
Theorem splitCsvLine_without_quotes (line : jsstring)
  (no_quote : includes_unit dquote line = false) :
  splitCsvLine line = map trim (splitComma line).
Proof.
  unfold splitCsvLine, splitComma.
  rewrite loop_without_quotes by exact no_quote. reflexivity.
Qed.

Lemma splitCsvLine_without_quotes_witness :
  splitCsvLine (lit " Call client , 100,4 ,,High")
  = [lit "Call client"; lit "100"; lit "4"; []; lit "High"].
Proof.
  rewrite (splitCsvLine_without_quotes (lit " Call client , 100,4 ,,High"));
    reflexivity.
Defined.

Lemma loop_length n : forall line res cur inQ,
  (List.length line <= n)%nat ->
  (List.length res < List.length (splitCsvLine_loop line res cur inQ))%nat.
Proof.
  induction n as [|n IH]; intros line res cur inQ Hn.
  - destruct line; [|simpl in Hn; lia]. simpl. rewrite length_app. simpl. lia.
  - destruct line as [|c rest]; simpl.
    + rewrite length_app. simpl. lia.
    + simpl in Hn.
      assert (step : forall l r k q, (List.length l <= n)%nat ->
                (List.length res <= List.length r)%nat ->
                (List.length res
                 < List.length (splitCsvLine_loop l r k q))%nat).
      { intros l r k q Hl Hr. specialize (IH l r k q Hl). lia. }
      destruct inQ.
      * destruct (unit_eqb c dquote).
        -- destruct rest as [|c' rest']; [apply step; simpl; lia|].
           simpl in Hn.
           destruct (unit_eqb c' dquote); apply step; simpl; lia.
        -- apply step; lia.
      * destruct (unit_eqb c comma);
          [apply step; [lia | rewrite length_app; simpl; lia]|].
        destruct (unit_eqb c dquote); apply step; lia.
Qed.

(** X10. [splitCsvLine] returns at least one field for every line, the
    empty line included, and no field it returns starts or ends with
    white space. *)
Theorem splitCsvLine_fields (line : jsstring) :
  splitCsvLine line <> []
  /\ Forall (fun f => edge_white f = false /\ trim f = f)
       (splitCsvLine line).
Proof.
  unfold splitCsvLine. split.
  - pose proof (loop_length (List.length line) line [] [] false (le_n _))
      as H.
    destruct (splitCsvLine_loop line [] [] false); [simpl in H; lia|].
    discriminate.
  - apply Forall_forall. intros f Hf. apply in_map_iff in Hf.
    destruct Hf as (g & <- & _).
    split; [apply trim_edges | apply trim_idempotent].
Qed.

Lemma splitLines_single s : forall cur,
  includes_unit newline s = false ->
  splitLines_loop s cur = [cur ++ s].
Proof.
  induction s as [|c s IH]; intros cur Hn; simpl.
  - rewrite app_nil_r. reflexivity.
  - rewrite includes_unit_cons in Hn. apply orb_false_iff in Hn.
    destruct Hn as [Hc Hn]. rewrite unit_eqb_sym in Hc. rewrite Hc.
    assert (R : splitLines_loop s (cur ++ [c]) = [cur ++ c :: s]).
    { rewrite IH by exact Hn. rewrite <- app_assoc. reflexivity. }
    destruct (unit_eqb c carriage_return); [|exact R].
    destruct s as [|c' s']; [exact R|].
    rewrite includes_unit_cons in Hn. apply orb_false_iff in Hn.
    destruct Hn as [Hc' _]. rewrite unit_eqb_sym in Hc'. rewrite Hc'.
    exact R.
Qed.

(** X11. [parseCsv] returns one row for each line after the first, so
    a text that is blank, or that is a header line alone, gives no rows;
    and a column that the header does not name reads as the empty string
    in every row. *)
Theorem parseCsv_edges (toLowerCase : jsstring -> jsstring)
  (text : jsstring) :
  let rows := parseCsv toLowerCase text in
  let header := header_of toLowerCase text in
  List.length rows = (List.length (splitLines (trim text)) - 1)%nat
  /\ (includes_unit newline (trim text) = false -> rows = [])
  /\ (indexOf (lit "title") header = None ->
      Forall (fun r => row_title r = []) rows)
  /\ (indexOf (lit "revenue") header = None ->
      Forall (fun r => row_revenue r = []) rows)
  /\ (indexOf (lit "time") header = None ->
      Forall (fun r => row_time r = []) rows)
  /\ (indexOf (lit "notes") header = None ->
      Forall (fun r => row_notes r = []) rows)
  /\ (indexOf (lit "priority") header = None ->
      Forall (fun r => row_priority r = []) rows)
  /\ (indexOf (lit "status") header = None ->
      Forall (fun r => row_status r = []) rows).
Proof.
  cbv zeta. unfold parseCsv, header_of.
  split; [|split].
  - destruct (splitLines (trim text)) as [|first rest]; [reflexivity|].
    simpl. rewrite length_map. lia.
  - intros Hn. unfold splitLines. rewrite splitLines_single by exact Hn.
    reflexivity.
  - destruct (splitLines (trim text)) as [|first rest];
      [repeat split; intros _; constructor|].
    repeat split; intros H; apply Forall_forall; intros r Hr;
      apply in_map_iff in Hr; destruct Hr as (line & <- & _);
      unfold csvRow; simpl; rewrite H; reflexivity.
Qed.

Lemma parseCsv_edges_witness :
  parseCsv Host.toLowerCase (lit "Title,Revenue,Time") = []
  /\ Forall (fun r => row_notes r = [])
       (parseCsv Host.toLowerCase
          (lit "title,revenue" ++ [newline] ++ lit "Call,100"
           ++ [newline] ++ lit "Mail,5")).
Proof.
  split.
  - apply (parseCsv_edges Host.toLowerCase (lit "Title,Revenue,Time")).
    reflexivity.
  - apply (parseCsv_edges Host.toLowerCase
             (lit "title,revenue" ++ [newline] ++ lit "Call,100"
              ++ [newline] ++ lit "Mail,5")).
    reflexivity.
Defined.

(** ** Coverage: exporting and reading back *)

Lemma includes_unit_app c a b :
  includes_unit c (a ++ b) = includes_unit c a || includes_unit c b.
Proof. apply existsb_app. Qed.

Lemma last_app_nonempty (a b : jsstring) d :
  b <> [] -> last (a ++ b) d = last b d.
Proof.
  intros Hb. induction a as [|x a IH]; [reflexivity|].
  simpl app. change (last (x :: a ++ b) d)
    with (match a ++ b with [] => x | _ :: _ => last (a ++ b) d end).
  destruct (a ++ b) eqn:E; [|exact IH].
  apply app_eq_nil in E. destruct E as [_ E]. contradiction.
Qed.

Lemma last_default (s : jsstring) d d' : s <> [] -> last s d = last s d'.
Proof.
  induction s as [|x s IH]; intros H; [contradiction|].
  destruct s as [|y s]; [reflexivity|].
  change (last (y :: s) d = last (y :: s) d'). apply IH. discriminate.
Qed.

Lemma ends_clean_edge f : f <> [] -> edge_white f = false -> ends_clean f.
Proof.
  intros Hne He. split; [exact Hne|].
  destruct f as [|c f]; [contradiction|].
  unfold edge_white in He. apply orb_false_iff in He.
  rewrite (last_default _ 0%N c) by discriminate. tauto.
Qed.

Lemma escapeCsv_plain f :
  includes_unit comma f = false -> includes_unit dquote f = false ->
  includes_unit newline f = false -> escapeCsv f = f.
Proof. intros Hc Hq Hn. unfold escapeCsv. rewrite Hc, Hq, Hn. reflexivity. Qed.

Lemma escapeCsv_no_newline f :
  includes_unit newline f = false ->
  includes_unit newline (escapeCsv f) = false.
Proof.
  intros Hn. unfold escapeCsv.
  destruct (includes_unit comma f || includes_unit dquote f
            || includes_unit newline f); [|exact Hn].
  rewrite !includes_unit_app. simpl. rewrite orb_false_r.
  unfold replaceAll_unit. induction f as [|c f IH]; [reflexivity|].
  rewrite includes_unit_cons in Hn. apply orb_false_iff in Hn.
  destruct Hn as [Hc Hn]. simpl flat_map. rewrite includes_unit_app.
  rewrite (IH Hn), orb_false_r.
  destruct (unit_eqb c dquote); [reflexivity|].
  rewrite includes_unit_cons, Hc. reflexivity.
Qed.

(** A line that holds no newline and ends cleanly is cut off whole. *)
Lemma splitLines_row row : forall cur rest,
  includes_unit newline row = false -> ends_clean row ->
  splitLines_loop (row ++ newline :: rest) cur
  = (cur ++ row) :: splitLines_loop rest [].
Proof.
  induction row as [|c row IH]; intros cur rest Hn [Hne Hl];
    [contradiction|].
  rewrite includes_unit_cons in Hn. apply orb_false_iff in Hn.
  destruct Hn as [Hc Hn]. rewrite unit_eqb_sym in Hc.
  simpl app. cbn [splitLines_loop]. rewrite Hc.
  destruct row as [|c' row'].
  - simpl in Hl. simpl app.
    assert (Hcr : unit_eqb c carriage_return = false).
    { destruct (unit_eqb c carriage_return) eqn:E; [|reflexivity].
      apply N.eqb_eq in E. subst c. discriminate Hl. }
    rewrite Hcr. reflexivity.
  - assert (R : splitLines_loop ((c' :: row') ++ newline :: rest) (cur ++ [c])
                = (cur ++ c :: c' :: row') :: splitLines_loop rest []).
    { rewrite IH; [rewrite <- app_assoc; reflexivity | exact Hn |].
      split; [discriminate | exact Hl]. }
    destruct (unit_eqb c carriage_return); [|exact R].
    simpl app in *.
    rewrite includes_unit_cons in Hn. apply orb_false_iff in Hn.
    destruct Hn as [Hc' _]. rewrite unit_eqb_sym in Hc'. rewrite Hc'.
    exact R.
Qed.

Lemma splitLines_join rows :
  rows <> [] ->
  Forall (fun r => includes_unit newline r = false /\ ends_clean r) rows ->
  splitLines_loop (join [newline] rows) [] = rows.
Proof.
  induction rows as [|r rows IH]; intros Hne Hall; [contradiction|].
  apply Forall_cons_iff in Hall. destruct Hall as [[Hn Hc] Hall].
  destruct rows as [|r2 rows].
  - simpl. apply splitLines_single. exact Hn.
  - change (join [newline] (r :: r2 :: rows))
      with (r ++ newline :: join [newline] (r2 :: rows)).
    rewrite splitLines_row by assumption.
    rewrite IH by (trivial; discriminate). reflexivity.
Qed.

Lemma join_ends_clean rows :
  rows <> [] -> Forall ends_clean rows -> ends_clean (join [newline] rows).
Proof.
  induction rows as [|r rows IH]; intros Hne Hall; [contradiction|].
  apply Forall_cons_iff in Hall. destruct Hall as [Hc Hall].
  destruct rows as [|r2 rows]; [exact Hc|].
  change (join [newline] (r :: r2 :: rows))
    with (r ++ newline :: join [newline] (r2 :: rows)).
  destruct (IH ltac:(discriminate) Hall) as [Jne Jl].
  split.
  - destruct r; discriminate.
  - rewrite last_app_nonempty by discriminate.
    change (last (newline :: join [newline] (r2 :: rows)) 0%N)
      with (match join [newline] (r2 :: rows) with
            | [] => newline
            | _ :: _ => last (join [newline] (r2 :: rows)) 0%N
            end).
    destruct (join [newline] (r2 :: rows)); [contradiction | exact Jl].
Qed.

Section ExportedRow.
Variable numberToString : float -> jsstring.
Hypothesis numbers_plain : forall x, plain_field (numberToString x).

Variable t : Task.
Hypothesis title_ok : text_field (title t).
Hypothesis notes_ok : text_field (notes_or_empty t).
Hypothesis id_ok : plain_field (id t).

Lemma Priority_name_plain p : plain_field (Priority_name p).
Proof. destruct p; repeat split. Qed.

Lemma Status_name_plain p : plain_field (Status_name p).
Proof. destruct p; repeat split. Qed.

Lemma exportRow_csvLine :
  exportRow numberToString t
  = csvLine [title t; numberToString (revenue t); numberToString (time t);
             numberToString (roi t); notes_or_empty t;
             Priority_name (priority t); Status_name (status t);
             numberToString (createdAt t); id t].
Proof.
  unfold exportRow, csvLine. cbn [map].
  assert (P : forall f, plain_field f -> escapeCsv f = f).
  { intros f (Hc & Hq & Hn & _). apply escapeCsv_plain; assumption. }
  rewrite !(P (numberToString _)) by apply numbers_plain.
  rewrite (P _ (Priority_name_plain _)), (P _ (Status_name_plain _)),
    (P _ id_ok).
  reflexivity.
Qed.

Lemma exportRow_fields :
  splitCsvLine (exportRow numberToString t)
  = [title t; numberToString (revenue t); numberToString (time t);
     numberToString (roi t); notes_or_empty t;
     Priority_name (priority t); Status_name (status t);
     numberToString (createdAt t); id t].
Proof.
  rewrite exportRow_csvLine. apply split_csvLine_general; [discriminate|].
  pose proof (Priority_name_plain (priority t)) as (_ & _ & _ & Hp).
  pose proof (Status_name_plain (status t)) as (_ & _ & _ & Hs).
  destruct title_ok as [_ Ht], notes_ok as [_ Hn], id_ok as (_ & _ & _ & Hi).
  repeat constructor; trivial; apply numbers_plain.
Qed.

Lemma exportRow_no_newline :
  includes_unit newline (exportRow numberToString t) = false.
Proof.
  unfold exportRow. cbn [join].
  pose proof (Priority_name_plain (priority t)) as (_ & _ & Hp & _).
  pose proof (Status_name_plain (status t)) as (_ & _ & Hs & _).
  destruct title_ok as [Ht _], notes_ok as [Hn _], id_ok as (_ & _ & Hi & _).
  assert (N : forall x, includes_unit newline (numberToString x) = false)
    by (intros x; apply numbers_plain).
  rewrite !includes_unit_app, !N, Hp, Hs, Hi,
    !escapeCsv_no_newline by assumption.
  reflexivity.
Qed.

Lemma exportRow_ends_clean : ends_clean (exportRow numberToString t).
Proof.
  assert (E : exists pre, exportRow numberToString t = pre ++ comma :: id t).
  { unfold exportRow. cbn [join].
    exists (escapeCsv (title t) ++ [comma] ++ numberToString (revenue t)
            ++ [comma] ++ numberToString (time t) ++ [comma]
            ++ numberToString (roi t) ++ [comma]
            ++ escapeCsv (notes_or_empty t) ++ [comma]
            ++ Priority_name (priority t) ++ [comma]
            ++ Status_name (status t) ++ [comma]
            ++ numberToString (createdAt t)).
    rewrite <- !app_assoc. reflexivity. }
  destruct E as [pre ->]. split.
  - destruct pre; discriminate.
  - rewrite last_app_nonempty by discriminate.
    destruct id_ok as (_ & _ & _ & Hi).
    destruct (id t) as [|c r] eqn:Ei; [reflexivity|].
    change (last (comma :: c :: r) 0%N) with (last (c :: r) 0%N).
    apply ends_clean_edge; [discriminate | exact Hi].
Qed.
End ExportedRow.

(** The sample number printer writes plain fields. *)
Lemma number_unit_not_white c : number_unit c = true -> is_white c = false.
Proof.
  unfold number_unit, is_digit, Host.is_letter. intros H.
  rewrite !orb_true_iff, !andb_true_iff, !N.leb_le, !N.eqb_eq in H.
  assert (B : 45 <= Z.of_N c <= 122) by lia.
  unfold is_white. cbv zeta.
  repeat match goal with
         | |- context [(?a <=? ?b)%Z] =>
             destruct (Z.leb_spec a b); try lia
         | |- context [(?a =? ?b)%Z] =>
             destruct (Z.eqb_spec a b); try lia
         end;
    try reflexivity.
Qed.

Lemma number_units_exclude x f :
  number_unit x = false -> Forall (fun c => number_unit c = true) f ->
  includes_unit x f = false.
Proof.
  intros Hx Hf. induction Hf as [|c f Hc _ IH]; [reflexivity|].
  rewrite includes_unit_cons, IH, orb_false_r.
  destruct (unit_eqb x c) eqn:E; [|reflexivity].
  apply N.eqb_eq in E. congruence.
Qed.

Lemma number_units_plain f :
  Forall (fun c => number_unit c = true) f -> plain_field f.
Proof.
  intros Hf. repeat split;
    try (apply number_units_exclude; [reflexivity | exact Hf]).
  destruct f as [|c f]; [reflexivity|].
  unfold edge_white. apply orb_false_iff. split.
  - apply number_unit_not_white. apply Forall_inv in Hf. exact Hf.
  - apply number_unit_not_white.
    rewrite Forall_forall in Hf. apply Hf.
    destruct (exists_last (l := c :: f)) as (g & z & E); [discriminate|].
    rewrite E, last_last. apply in_or_app. right. left. reflexivity.
Qed.

Lemma rev_digits_units fuel : forall n,
  Forall (fun c => number_unit c = true) (Host.rev_digits fuel n).
Proof.
  induction fuel as [|fuel IH]; intros n; cbn [Host.rev_digits];
    [constructor|].
  constructor.
  - pose proof (Z.mod_pos_bound n 10 ltac:(lia)) as B.
    set (c := Z.to_N (48 + n mod 10)).
    assert (Hc : (48 <= c <= 57)%N) by (unfold c; lia).
    unfold number_unit, is_digit.
    rewrite (proj2 (N.leb_le 48 c)), (proj2 (N.leb_le c 57)) by lia.
    reflexivity.
  - destruct (n <? 10); [constructor | apply IH].
Qed.

Lemma pad_zeros_units n : forall s,
  Forall (fun c => number_unit c = true) s ->
  Forall (fun c => number_unit c = true) (Host.pad_zeros n s).
Proof.
  induction n as [|n IH]; intros s Hs; simpl; [exact Hs|].
  destruct s as [|c s].
  - constructor; [reflexivity | apply IH; constructor].
  - apply Forall_cons_iff in Hs. constructor; [tauto | apply IH; tauto].
Qed.

Lemma strip_zeros_units s :
  Forall (fun c => number_unit c = true) s ->
  Forall (fun c => number_unit c = true) (Host.strip_zeros s).
Proof.
  induction 1 as [|c s Hc Hs IH]; simpl; [constructor|].
  destruct (c =? 48)%N; [exact IH | constructor; assumption].
Qed.

Lemma exact_decimal_units m e :
  Forall (fun c => number_unit c = true) (Host.exact_decimal m e).
Proof.
  unfold Host.exact_decimal. destruct (0 <=? e).
  - apply Forall_rev, rev_digits_units.
  - set (ds := Host.pad_zeros _ _).
    assert (D : Forall (fun c => number_unit c = true) ds)
      by apply pad_zeros_units, rev_digits_units.
    rewrite <- (firstn_skipn (Z.to_nat (- e)) ds) in D.
    apply Forall_app in D. destruct D as [Df Ds].
    apply Forall_app. split; [apply Forall_rev; exact Ds|].
    pose proof (strip_zeros_units _ Df) as F.
    destruct (Host.strip_zeros _); [constructor|].
    constructor; [reflexivity | apply Forall_rev; exact F].
Qed.

Lemma Host_numberToString_plain x : plain_field (Host.numberToString x).
Proof.
  apply number_units_plain. unfold Host.numberToString.
  destruct (Prim2SF x) as [s|s| |s m e].
  - repeat constructor.
  - destruct s; repeat constructor.
  - repeat constructor.
  - apply Forall_app. split; [destruct s; repeat constructor|].
    apply exact_decimal_units.
Qed.

(** X12. Exporting and reading back.  When the titles and notes hold
    no newline and no white space at their ends, the ids are plain, the
    host prints numbers as plain fields and lower-cases the column names
    as expected, [parseCsv] applied to the text that [exportCsv] writes
    returns one row per task, in order, with the task's title, notes,
    priority and status, and its revenue and time as printed. *)
Theorem export_then_parse
  (numberToString : float -> jsstring)
  (toLowerCase : jsstring -> jsstring)
  (tasks : list Task)
  (numbers_plain : forall x, plain_field (numberToString x))
  (lower_columns : map toLowerCase csv_columns = csv_columns_lower)
  (tasks_ok : Forall (fun t => text_field (title t)
                               /\ text_field (notes_or_empty t)
                               /\ plain_field (id t)) tasks) :
  parseCsv toLowerCase (exportCsv_text numberToString tasks)
  = map (exported_row numberToString) tasks.
Proof.
  destruct tasks as [|t0 ts]; [reflexivity|].
  set (all := t0 :: ts) in *.
  set (rows := map (exportRow numberToString) all).
  assert (Rne : rows <> []) by discriminate.
  assert (Rok : Forall (fun r => includes_unit newline r = false
                                 /\ ends_clean r) rows).
  { unfold rows. apply Forall_map. eapply Forall_impl; [|exact tasks_ok].
    intros t (Ht & Hn & Hi). split.
    - apply exportRow_no_newline; assumption.
    - apply exportRow_ends_clean; assumption. }
  set (head_line :=
         lit "title,revenue,time,roi,notes,priority,status,createdAt,id").
  assert (Etext : exportCsv_text numberToString all
                  = head_line ++ newline :: join [newline] rows).
  { unfold exportCsv_text, csv_header. fold head_line. fold rows.
    rewrite <- app_assoc. reflexivity. }
  assert (Jc : ends_clean (join [newline] rows)).
  { apply join_ends_clean; [exact Rne|].
    eapply Forall_impl; [|exact Rok]. simpl. tauto. }
  assert (Etrim : trim (exportCsv_text numberToString all)
                  = exportCsv_text numberToString all).
  { apply trim_no_edge_white. rewrite Etext.
    change (head_line ++ newline :: join [newline] rows)
      with (116%N :: (tl head_line ++ newline :: join [newline] rows)).
    unfold edge_white. apply orb_false_iff. split; [reflexivity|].
    change (116%N :: (tl head_line ++ newline :: join [newline] rows))
      with ((head_line ++ [newline]) ++ join [newline] rows).
    destruct Jc as [Jne Jl].
    rewrite last_app_nonempty by exact Jne.
    rewrite (last_default _ 116%N 0%N) by exact Jne. exact Jl. }
  unfold parseCsv. rewrite Etrim, Etext. unfold splitLines.
  rewrite splitLines_row; [|reflexivity | split; [discriminate|reflexivity]].
  rewrite splitLines_join by assumption.
  simpl app.
  assert (Eh : map (fun h => toLowerCase (trim h)) (splitComma head_line)
               = csv_columns_lower).
  { rewrite <- lower_columns, <- (map_map trim toLowerCase). reflexivity. }
  rewrite Eh. unfold rows. rewrite map_map.
  apply map_ext_in. intros t Ht.
  rewrite Forall_forall in tasks_ok.
  destruct (tasks_ok t Ht) as (Hti & Hno & Hid).
  unfold csvRow.
  rewrite (exportRow_fields numberToString numbers_plain t Hti Hno Hid).
  reflexivity.
Qed.

Lemma export_then_parse_witness :
  parseCsv Host.toLowerCase
    (exportCsv_text Host.numberToString [Samples.call; Samples.demo])
  = [exported_row Host.numberToString Samples.call;
     exported_row Host.numberToString Samples.demo].
Proof.
  apply (export_then_parse Host.numberToString Host.toLowerCase
           [Samples.call; Samples.demo] Host_numberToString_plain eq_refl).
  repeat constructor.
Defined.

(** ** Coverage: the sorted view *)

(** X13. Whatever the collation and the lower-casing do, the sorted
    view holds exactly the tasks that pass the filters, each as often as
    the list holds it: sorting neither drops nor repeats a task. *)
Theorem view_shows_matching_tasks
  (toLowerCase : jsstring -> jsstring)
  (localeCompare : jsstring -> jsstring -> float)
  (tasks : list Task) (pf : option Priority) (sf : option Status)
  (search : jsstring) :
  let view := sortedFiltered toLowerCase localeCompare tasks pf sf search in
  Permutation (filter (matchesFilters toLowerCase pf sf search) tasks) view
  /\ (forall t, In t view <->
        In t tasks /\ matchesFilters toLowerCase pf sf search t = true)
  /\ (List.length view <= List.length tasks)%nat.
Proof.
  cbv zeta. unfold sortedFiltered.
  set (shown := filter _ tasks).
  pose proof (sort_perm (compareTasks toLowerCase localeCompare) shown) as P.
  split; [exact P|]. split.
  - intros t. rewrite <- filter_In. fold shown. split; intros H.
    + exact (Permutation_in _ (Permutation_sym P) H).
    + exact (Permutation_in _ P H).
  - rewrite <- (Permutation_length P). apply filter_length_le.
Qed.

(** X14. Under a collation that is a consistent comparator and tells
    the different lower-cased titles of the list apart, with creation
    times that are numbers and no two tasks agreeing on all four keys,
    every task of the sorted view comes strictly before all the tasks
    shown below it, and sorting the view once more changes nothing. *)
Theorem sorted_view_ordered
  (toLowerCase : jsstring -> jsstring)
  (localeCompare : jsstring -> jsstring -> float)
  (sep : consistent_collation localeCompare)
  (l : list Task)
  (distinct : NoDup l)
  (keys_differ : forall a b, In a l -> In b l ->
     same_keys toLowerCase a b -> a = b)
  (titles : forall a b, In a l -> In b l ->
     told_apart localeCompare (toLowerCase (title a)) (toLowerCase (title b)))
  (times : forall a, In a l -> is_nan (createdAt a) = false)
  (pf : option Priority) (sf : option Status) (search : jsstring) :
  let cmp := compareTasks toLowerCase localeCompare in
  let view := sortedFiltered toLowerCase localeCompare l pf sf search in
  StronglySorted (precedes cmp) view
  /\ sort cmp view = view.
Proof.
  cbv zeta.
  assert (C := compareTasks_consistent toLowerCase localeCompare sep).
  assert (T : forall a b c,
             precedes (compareTasks toLowerCase localeCompare) a b ->
             precedes (compareTasks toLowerCase localeCompare) b c ->
             precedes (compareTasks toLowerCase localeCompare) a c).
  { unfold precedes. intros a b c. rewrite !before_lex.
    apply lex_trans. exact sep. }
  assert (O : forall a b, In a l -> In b l -> a <> b ->
             precedes (compareTasks toLowerCase localeCompare) a b
             \/ precedes (compareTasks toLowerCase localeCompare) b a).
  { unfold precedes. intros a b Ia Ib Hne.
    rewrite !before_lex. apply orb_true_iff.
    apply lex_total; auto. }
  unfold sortedFiltered.
  set (shown := filter (matchesFilters toLowerCase pf sf search) l).
  assert (Nd : NoDup shown) by (apply NoDup_filter; exact distinct).
  assert (Dom : Forall (fun t => In t l) shown).
  { apply Forall_forall. intros t Ht. apply filter_In in Ht. tauto. }
  split.
  - apply (sort_sorted _ (fun t => In t l) C T O); assumption.
  - symmetry.
    apply (sort_permutation_invariant _ (fun t => In t l) C T O);
      trivial.
    apply sort_perm.
Qed.

Lemma sorted_view_ordered_witness :
  let cmp := compareTasks Host.toLowerCase Host.localeCompare in
  let view := sortedFiltered Host.toLowerCase Host.localeCompare
                [Samples.call; Samples.demo; Samples.older; Samples.newer]
                None None [] in
  view = [Samples.demo; Samples.call; Samples.newer; Samples.older]
  /\ sort cmp view = view.
Proof.
  cbv zeta. split; [reflexivity|].
  apply (sorted_view_ordered Host.toLowerCase Host.localeCompare
           Host_localeCompare_consistent
           [Samples.call; Samples.demo; Samples.older; Samples.newer]).
  - repeat constructor; simpl; intros H;
      repeat (destruct H as [H|H]; [discriminate H|]); exact H.
  - intros a b Ia Ib (_ & _ & _ & Hc). simpl in Ia, Ib.
    repeat (destruct Ia as [<-|Ia]; [|]); try contradiction;
      repeat (destruct Ib as [<-|Ib]; [|]); try contradiction;
      try reflexivity; discriminate Hc.
  - intros a b Ia Ib. simpl in Ia, Ib.
    repeat (destruct Ia as [<-|Ia]; [|]); try contradiction;
      repeat (destruct Ib as [<-|Ib]; [|]); try contradiction;
      intros Hne; try reflexivity; exfalso; apply Hne; reflexivity.
  - intros a Ia. simpl in Ia.
    repeat (destruct Ia as [<-|Ia]; [|]); try contradiction; reflexivity.
Defined.

Lemma compare_units_tie s : forall t,
  Host.compare_units s t = 0%float <-> s = t.
Proof.
  assert (Lo : (-1)%float <> 0%float).
  { intros H. apply (f_equal (fun x => (x <? 0)%float)) in H.
    vm_compute in H. discriminate H. }
  assert (Hi : 1%float <> 0%float).
  { intros H. apply (f_equal (fun x => (0 <? x)%float)) in H.
    vm_compute in H. discriminate H. }
  induction s as [|a s IH]; intros [|b t]; simpl.
  - split; reflexivity.
  - split; [intros H; destruct (Lo H) | discriminate].
  - split; [intros H; destruct (Hi H) | discriminate].
  - destruct (N.ltb_spec a b) as [Hab|Hab].
    + split; [intros H; destruct (Lo H)|].
      intros H. injection H as -> _. lia.
    + destruct (N.ltb_spec b a) as [Hba|Hba].
      * split; [intros H; destruct (Hi H)|].
        intros H. injection H as -> _. lia.
      * assert (a = b) as -> by lia. rewrite IH.
        split; [intros ->; reflexivity | intros H; injection H; trivial].
Qed.

(** The sample collation ranks as equal exactly the strings with the
    same canonical composition, so its ties are transitive. *)
Lemma Host_localeCompare_ties s t u :
  Host.localeCompare s t = 0%float -> Host.localeCompare t u = 0%float ->
  Host.localeCompare s u = 0%float.
Proof.
  unfold Host.localeCompare. rewrite !compare_units_tie. congruence.
Qed.

(** X15. For every collation whose sign flips with its arguments and
    whose "before" is transitive, the task comparator has these two
    properties as well, and puts no task before itself.  It is not a
    consistent comparator for all that, since its ties are not
    transitive even when those of the collation are: under the sample
    collation [Samples.composed] ties with [Samples.decomposed], which
    ties with [Samples.composed_old], and yet [Samples.composed] comes
    before [Samples.composed_old]. *)
Theorem comparator_order_laws
  (toLowerCase : jsstring -> jsstring)
  (localeCompare : jsstring -> jsstring -> float)
  (sep : consistent_collation localeCompare) (a b c : Task) :
  let cmp := compareTasks toLowerCase localeCompare in
  let host := compareTasks Host.toLowerCase Host.localeCompare in
  (cmp a b <? 0)%float = (0 <? cmp b a)%float
  /\ (0 <? cmp a b)%float = (cmp b a <? 0)%float
  /\ ~ precedes cmp a a
  /\ (precedes cmp a b -> precedes cmp b c -> precedes cmp a c)
  /\ consistent_collation Host.localeCompare
  /\ (forall s t u,
        Host.localeCompare s t = 0%float ->
        Host.localeCompare t u = 0%float ->
        Host.localeCompare s u = 0%float)
  /\ host Samples.composed Samples.decomposed = 0%float
  /\ host Samples.decomposed Samples.composed = 0%float
  /\ host Samples.decomposed Samples.composed_old = 0%float
  /\ host Samples.composed_old Samples.decomposed = 0%float
  /\ host Samples.composed Samples.composed_old = (-1000)%float
  /\ precedes host Samples.composed Samples.composed_old
  /\ ~ (forall x y z : Task,
          host x y = 0%float -> host y z = 0%float -> host x z = 0%float).
Proof.
  cbv zeta.
  assert (C := compareTasks_consistent toLowerCase localeCompare sep).
  split; [apply C|]. split; [symmetry; apply C|]. split.
  { apply (precedes_irrefl _ C). }
  split.
  { unfold precedes. rewrite !before_lex. apply lex_trans. exact sep. }
  split; [exact Host_localeCompare_consistent|].
  split; [exact Host_localeCompare_ties|].
  split; [reflexivity|]. split; [reflexivity|]. split; [reflexivity|].
  split; [reflexivity|]. split; [reflexivity|]. split; [reflexivity|].
  intros H.
  specialize (H Samples.composed Samples.decomposed Samples.composed_old
                eq_refl eq_refl).
  apply (f_equal (fun x => (x <? 0)%float)) in H.
  vm_compute in H. discriminate H.
Qed.

Lemma comparator_order_laws_witness :
  let cmp := compareTasks Host.toLowerCase Host.localeCompare in
  (cmp Samples.composed Samples.decomposed <? 0)%float
  = (0 <? cmp Samples.decomposed Samples.composed)%float
  /\ ~ precedes cmp Samples.call Samples.call
  /\ precedes cmp Samples.demo Samples.newer.
Proof.
  cbv zeta. split; [|split].
  - exact (proj1 (comparator_order_laws Host.toLowerCase Host.localeCompare
             Host_localeCompare_consistent
             Samples.composed Samples.decomposed Samples.call)).
  - exact (proj1 (proj2 (proj2
             (comparator_order_laws Host.toLowerCase Host.localeCompare
                Host_localeCompare_consistent
                Samples.call Samples.call Samples.call)))).
  - apply (proj1 (proj2 (proj2 (proj2
             (comparator_order_laws Host.toLowerCase Host.localeCompare
                Host_localeCompare_consistent
                Samples.demo Samples.call Samples.newer)))));
      reflexivity.
Defined.

(** ** Coverage: importing rows *)

Lemma or_default_nonempty s d : d <> [] -> or_default s d <> [].
Proof. destruct s; simpl; [trivial | discriminate]. Qed.

Lemma importRow_sound numberToString now r idx suffix :
  let t := importRow numberToString now r idx suffix in
  isFinite (imp_revenue t) = true
  /\ isFinite (imp_time t) = true
  /\ imp_roi t = calculateRoi (imp_revenue t) (imp_time t)
  /\ is_nan (imp_roi t) = false
  /\ imp_title t <> []
  /\ imp_priority t <> []
  /\ imp_status t <> []
  /\ edge_white (imp_notes t) = false.
Proof.
  cbv zeta. unfold importRow. cbn -[safeNumber calculateRoi trim lit].
  repeat split; try apply safeNumber_finite;
    try apply calculateRoi_never_nan;
    try (apply or_default_nonempty; discriminate).
  pose proof (trim_edges (row_notes r)) as H.
  destruct (trim (row_notes r)); [reflexivity | exact H].
Qed.

Lemma importRows_nth numberToString now suffixes rows : forall idx k r,
  nth_error rows k = Some r ->
  nth_error (importRows_from numberToString now idx rows suffixes) k
  = Some (importRow numberToString now r (idx + k) (suffixes (idx + k)%nat)).
Proof.
  induction rows as [|r0 rows IH]; intros idx k r Hk.
  - destruct k; discriminate Hk.
  - destruct k as [|k]; simpl in *.
    + injection Hk as <-. rewrite Nat.add_0_r. reflexivity.
    + rewrite (IH (S idx) k r Hk). rewrite Nat.add_succ_r. reflexivity.
Qed.

(** X16. Every task that [importCsv] builds from a row has finite
    revenue and time, the ROI computed from them (never [NaN]), a title,
    a priority and a status that are not empty, and trimmed notes.  The
    row at index [k] becomes the task at index [k], with creation time
    [now + k]; an empty title becomes ["Task "] followed by [k + 1], an
    empty priority ["Medium"], an empty status ["Todo"], and a priority
    or status that is not empty is taken over as it is, whatever it
    says. *)
Theorem imported_tasks_sound
  (numberToString : float -> jsstring) (now : float)
  (rows : list TaskCsvRow) (suffixes : nat -> jsstring) :
  let imported := importedTasks numberToString now rows suffixes in
  List.length imported = List.length rows
  /\ Forall (fun t =>
       isFinite (imp_revenue t) = true
       /\ isFinite (imp_time t) = true
       /\ imp_roi t = calculateRoi (imp_revenue t) (imp_time t)
       /\ is_nan (imp_roi t) = false
       /\ imp_title t <> [] /\ imp_priority t <> [] /\ imp_status t <> []
       /\ edge_white (imp_notes t) = false) imported
  /\ (forall k r, nth_error rows k = Some r ->
      exists t, nth_error imported k = Some t
        /\ imp_createdAt t = (now + number_of_nat k)%float
        /\ imp_revenue t = safeNumber (VString (row_revenue r))
        /\ imp_time t = safeNumber (VString (row_time r))
        /\ (trim (row_title r) <> [] -> imp_title t = trim (row_title r))
        /\ (trim (row_title r) = [] ->
            imp_title t
            = lit "Task " ++ numberToString (number_of_nat k + 1)%float)
        /\ (row_priority r = [] -> imp_priority t = lit "Medium")
        /\ (row_priority r <> [] -> imp_priority t = row_priority r)
        /\ (row_status r = [] -> imp_status t = lit "Todo")
        /\ (row_status r <> [] -> imp_status t = row_status r)).
Proof.
  cbv zeta. unfold importedTasks. split; [|split].
  - generalize 0%nat. induction rows as [|r rows IH]; intros idx; simpl;
      [reflexivity | rewrite IH; reflexivity].
  - generalize 0%nat. induction rows as [|r rows IH]; intros idx; simpl;
      constructor; [apply importRow_sound | apply IH].
  - intros k r Hk. rewrite (importRows_nth _ _ _ _ 0 k r Hk).
    eexists. split; [reflexivity|]. simpl.
    assert (D : forall s d, (s <> [] -> or_default s d = s)
                            /\ (s = [] -> or_default s d = d)).
    { intros s d. destruct s; simpl; split; congruence. }
    repeat split; try apply D.
Qed.

Lemma imported_tasks_sound_witness :
  let rows := parseCsv Host.toLowerCase
                (lit "title,revenue,time,priority" ++ [newline]
                 ++ lit "Call,100,4,Urgent" ++ [newline]
                 ++ lit ",abc,0,") in
  map imp_priority
    (importedTasks Host.numberToString 1700000000000 rows (fun _ => lit "r1"))
  = [lit "Urgent"; lit "Medium"]
  /\ map imp_title
       (importedTasks Host.numberToString 1700000000000 rows
          (fun _ => lit "r1"))
     = [lit "Call"; lit "Task 2"].
Proof.
  cbv zeta.
  set (rows := parseCsv Host.toLowerCase _).
  pose proof (imported_tasks_sound Host.numberToString 1700000000000 rows
                (fun _ => lit "r1")) as H.
  cbv zeta in H. destruct H as (_ & _ & H).
  destruct (H 0%nat _ eq_refl) as (t0 & E0 & _ & _ & _ & T0 & _ & _ & P0 & _).
  destruct (H 1%nat _ eq_refl) as (t1 & E1 & _ & _ & _ & _ & T1 & P1 & _).
  assert (E : importedTasks Host.numberToString 1700000000000 rows
                (fun _ => lit "r1") = [t0; t1]).
  { revert E0 E1.
    destruct (importedTasks Host.numberToString 1700000000000 rows
                (fun _ => lit "r1")) as [|x [|y [|z l]]] eqn:L;
      try discriminate; try (intros; discriminate).
    intros E0 E1. injection E0 as <-. injection E1 as <-. reflexivity. }
  rewrite E. simpl map.
  rewrite (P0 ltac:(discriminate)), (P1 eq_refl),
    (T0 ltac:(discriminate)), (T1 eq_refl).
  split; reflexivity.
Defined.

(** ** Coverage: the grade *)

(** X17. A larger average never earns a worse grade: going from an
    average to one at least as large, an ['A'] stays an ['A'], a ['B']
    stays a ['B'] or becomes an ['A'], and a ['C'] does not fall back to
    the dash; and only an average above [0] gets a grade at all. *)
Theorem grade_monotone (a b : float) (le : (a <=? b)%float = true) :
  (grade_of a = lit "A" -> grade_of b = lit "A")
  /\ (grade_of a = lit "B" -> grade_of b = lit "A" \/ grade_of b = lit "B")
  /\ (grade_of a = lit "C" -> grade_of b <> grade_dash)
  /\ (grade_of b = grade_dash -> grade_of a = grade_dash)
  /\ (grade_of a <> grade_dash -> (0 <? a)%float = true).
Proof.
  pose proof (fun H => float_leb_trans 5 a b H le) as H5.
  pose proof (fun H => float_leb_trans 2 a b H le) as H2.
  pose proof (fun H => float_ltb_leb_trans 0 a b H le) as H0.
  pose proof (float_ltb_leb_trans 0 5 a eq_refl) as P5.
  pose proof (float_ltb_leb_trans 0 2 a eq_refl) as P2.
  unfold grade_of, grade_dash. revert H5 H2 H0 P5 P2.
  destruct (5 <=? a)%float, (2 <=? a)%float, (0 <? a)%float,
    (5 <=? b)%float, (2 <=? b)%float, (0 <? b)%float;
    intros H5 H2 H0 P5 P2;
    try discriminate (H5 eq_refl); try discriminate (H2 eq_refl);
    try discriminate (H0 eq_refl); try discriminate (P5 eq_refl);
    try discriminate (P2 eq_refl);
    (split; [|split; [|split; [|split]]]); intros H;
    try reflexivity; try discriminate H; try discriminate;
    try (left; reflexivity); try (right; reflexivity);
    try (exfalso; apply H; reflexivity).
Qed.

Lemma grade_monotone_witness :
  grade_of 7 = lit "A" /\ grade_of 3 = lit "B".
Proof.
  destruct (grade_monotone 5 7 eq_refl) as (HA & _).
  destruct (grade_monotone 2 3 eq_refl) as (_ & HB & _).
  split; [apply HA; reflexivity|].
  destruct (HB eq_refl) as [H|H]; [discriminate H | exact H].
Defined.

(** ** Coverage: confirming a deletion *)

(** X18. Confirming the delete dialog opened for a task closes the
    dialog and leaves exactly the tasks with another id, in their order;
    the task is gone from the list.  A second confirmation changes
    nothing more, and without an open delete dialog [onConfirmDelete]
    changes nothing at all. *)
Theorem confirm_delete_once (t : Task) (st : AppState) :
  let st' := onConfirmDelete (openDelete t st) in
  dialog st' = DialogNone
  /\ tasks (hook st')
     = filter (fun x => negb (jsstring_eqb (id x) (id t))) (tasks (hook st))
  /\ ~ In (id t) (ids (hook st'))
  /\ (forall x, In x (tasks (hook st')) <->
                In x (tasks (hook st)) /\ id x <> id t)
  /\ onConfirmDelete st' = st'
  /\ (forall s, (forall u, dialog s <> DialogDelete u) ->
                onConfirmDelete s = s).
Proof.
  cbv zeta. unfold onConfirmDelete at 1 2 3 4 5.
  unfold openDelete, closeDialog.
  cbn [dialog hook]. rewrite deleteTask_run.
  assert (F : forall x,
             In x (filter (fun x => negb (jsstring_eqb (id x) (id t)))
                     (tasks (hook st))) <->
             In x (tasks (hook st)) /\ id x <> id t)
    by (intros x; apply filter_keeps_others).
  split; [reflexivity|]. split; [|split; [|split; [|split]]].
  - destruct (find _ (tasks (hook st))); reflexivity.
  - unfold ids. intros Hin. apply in_map_iff in Hin.
    destruct Hin as (x & Hx & Hin).
    assert (In x (filter (fun x => negb (jsstring_eqb (id x) (id t)))
                    (tasks (hook st))))
      by (destruct (find _ (tasks (hook st))); exact Hin).
    apply F in H. tauto.
  - intros x. destruct (find _ (tasks (hook st))); apply F.
  - reflexivity.
  - intros s Hs. unfold onConfirmDelete.
    destruct (dialog s) as [| | |u] eqn:E; try reflexivity.
    destruct (Hs u eq_refl).
Qed.

Lemma confirm_delete_once_witness :
  let st := {| hook := {| tasks := [Samples.call; Samples.demo];
                          lastDeleted := None; snackbarOpen := false |};
               dialog := DialogView Samples.call |} in
  onConfirmDelete st = st
  /\ tasks (hook (onConfirmDelete (openDelete Samples.call st)))
     = [Samples.demo].
Proof.
  cbv zeta. split.
  - apply (proj2 (proj2 (proj2 (proj2 (proj2
             (confirm_delete_once Samples.call
                {| hook := {| tasks := []; lastDeleted := None;
                              snackbarOpen := false |};
                   dialog := DialogNone |})))))).
    intros u H. discriminate H.
  - rewrite (proj1 (proj2 (confirm_delete_once Samples.call _))).
    reflexivity.
Defined.
